(** * Screenshot extraction layer of the process-mining backend

    A shallow embedding of
      - [src/backend/video_processing/screenshot_extractor.py]
        (class [ScreenshotExtractor]),
      - [src/backend/video_processing/gemini_client.py]
        ([GeminiClient._upload_file_with_retry], the two response parsers,
        [analyze_video_chunk], [transcribe_audio] and
        [batch_analyze_chunks]) and
      - the analysis stage of [process_video]
        ([src/backend/video_processing/process_video.py]),
    together with the properties the specification states about them and
    further properties of the same code.
    Line numbers refer to [screenshot_extractor.py] unless another file is
    named.

    Conventions of the embedding.
      - Python [int] is [Z].  Python [float] is [pynum]: a finite float is
        an exact rational, the three special values are constructors of
        their own.  Arithmetic on finite floats is exact, except where the
        program's result depends on the rounding: the product that [int]
        truncates is rounded to the nearest double ([float_mul]), and an
        [int] too large for a float makes the division of
        [_validate_timestamp] raise ([float_limit]).
      - A Python [dict] whose iteration order is observed is an association
        list in insertion order; a dict that is only looked up by key is a
        [gmap].
      - External processes and remote calls are oracles passed as arguments;
        a raised exception is a constructor of the oracle's answer.
      - Library code (pathlib, [float] and [int] on strings, [json.loads],
        pydantic's validation of a field) is a type class; the instances
        given here serve the worked examples only. *)

From Stdlib Require Import ZArith QArith Lia Lqa.
From Stdlib Require Import String Ascii DecimalString.
From Stdlib Require DecimalNat DecimalPos DecimalZ SpecFloat.
From stdpp Require Import base decidable option list sorting gmap strings.

Local Open Scope Z_scope.

(** ** Configuration ([ScreenshotConfig], lines 14 to 23) *)

Record ScreenshotConfig := {
  image_quality : Z;
  image_format : string;
  max_concurrent_extractions : Z;
  timeout_seconds : Z;
  screenshot_subdir : string;
  dedup_threshold_ms : Z;
  fast_seek : bool
}.

Definition default_config : ScreenshotConfig := {|
  image_quality := 2;
  image_format := "jpg";
  max_concurrent_extractions := 4;
  timeout_seconds := 30;
  screenshot_subdir := "screenshots";
  dedup_threshold_ms := 500;
  fast_seek := true
|}.

(** ** Python numbers

    [pynum] stands for the values of Python's [int] and [float] that the
    extractor mixes freely ([min(timestamp_ms, max_timestamp_ms)] compares an
    [int] with a [float]).  [PInf] is [float('inf')]. *)

Inductive pynum : Type :=
  | Fin (q : Q)
  | PInf
  | NInf
  | NaN.

Definition of_int (z : Z) : pynum := Fin (inject_Z z).

(** Python's [a < b]; every comparison with [nan] is false. *)
Definition pn_ltb (a b : pynum) : bool :=
  match a, b with
  | NaN, _ | _, NaN => false
  | Fin x, Fin y => match (x ?= y)%Q with Lt => true | _ => false end
  | NInf, NInf => false
  | NInf, _ => true
  | _, NInf => false
  | PInf, _ => false
  | Fin _, PInf => true
  end.

(** Built-in [min(a, b)]: the first argument unless the second is smaller. *)
Definition py_min (a b : pynum) : pynum := if pn_ltb b a then b else a.

(** Built-in [max(a, b)]: the first argument unless the second is greater. *)
Definition py_max (a b : pynum) : pynum := if pn_ltb a b then b else a.

Definition pn_sub (a b : pynum) : pynum :=
  match a, b with
  | NaN, _ | _, NaN => NaN
  | Fin x, Fin y => Fin (x - y)
  | PInf, PInf | NInf, NInf => NaN
  | PInf, _ => PInf
  | NInf, _ => NInf
  | Fin _, PInf => NInf
  | Fin _, NInf => PInf
  end.

Definition pn_neg (a : pynum) : pynum :=
  match a with
  | Fin x => Fin (- x)
  | PInf => NInf
  | NInf => PInf
  | NaN => NaN
  end.

(** [inf * x] for finite [x]. *)
Definition inf_times (x : Q) : pynum :=
  match (x ?= 0)%Q with
  | Gt => PInf
  | Lt => NInf
  | Eq => NaN
  end.

Definition pn_mul (a b : pynum) : pynum :=
  match a, b with
  | NaN, _ | _, NaN => NaN
  | Fin x, Fin y => Fin (x * y)
  | PInf, Fin x | Fin x, PInf => inf_times x
  | NInf, Fin x | Fin x, NInf => pn_neg (inf_times x)
  | PInf, PInf | NInf, NInf => PInf
  | PInf, NInf | NInf, PInf => NInf
  end.

(** Rounding to the nearest double (IEEE 754 binary64: 53 bits, exponents
    from -1074, ties to even).  [round_half_even n d] is the integer nearest
    to [n / d] for [n] that is not negative. *)
Definition round_half_even (n : Z) (d : positive) : Z :=
  let q := n / Z.pos d in
  match 2 * (n mod Z.pos d) ?= Z.pos d with
  | Lt => q
  | Gt => q + 1
  | Eq => if Z.even q then q else q + 1
  end.

(** The double nearest to [n / d]: with [fl] the integer part of the binary
    logarithm of [n / d], the result is a multiple of [2 ^ e] for
    [e = max (-1074) (fl - 52)]; a result of [2 ^ 1024] or more is
    infinite. *)
Definition float_round_pos (n d : positive) : pynum :=
  let l := Z.log2 (Z.pos n) - Z.log2 (Z.pos d) in
  let fl := if (if 0 <=? l then Z.pos d * 2 ^ l <=? Z.pos n
                else Z.pos d <=? Z.pos n * 2 ^ (- l))
            then l else l - 1 in
  let e := Z.max (-1074) (fl - 52) in
  if 0 <=? e then
    let m := round_half_even (Z.pos n) (d * Z.to_pos (2 ^ e)) in
    if 2 ^ 1024 <=? m * 2 ^ e then PInf else Fin (inject_Z (m * 2 ^ e))
  else
    Fin (Qred (round_half_even (Z.pos n * 2 ^ (- e)) d # Z.to_pos (2 ^ (- e)))).

Definition float_round (q : Q) : pynum :=
  match Qnum q with
  | Z0 => Fin 0
  | Z.pos n => float_round_pos n (Qden q)
  | Z.neg n => pn_neg (float_round_pos n (Qden q))
  end.

(** [a * b] on floats: the exact product, rounded. *)
Definition float_mul (a b : pynum) : pynum :=
  match pn_mul a b with
  | Fin q => float_round q
  | x => x
  end.

(** [a / b] for a divisor that is not zero. *)
Definition pn_div (a b : pynum) : pynum :=
  match a, b with
  | NaN, _ | _, NaN => NaN
  | Fin x, Fin y => Fin (x / y)
  | Fin _, (PInf | NInf) => Fin 0
  | (PInf | NInf), (PInf | NInf) => NaN
  | PInf, Fin y => match (y ?= 0)%Q with Lt => NInf | _ => PInf end
  | NInf, Fin y => match (y ?= 0)%Q with Lt => PInf | _ => NInf end
  end.

Definition pn_is_zero (a : pynum) : bool :=
  match a with
  | Fin x => Qeq_bool x 0
  | _ => false
  end.

(** Python's true division [a / b]; [None] is [ZeroDivisionError]. *)
Definition py_truediv (a b : pynum) : option pynum :=
  if pn_is_zero b then None else Some (pn_div a b).

(** ** Domain model ([models.py]) *)

Inductive EventType : Type :=
  | SCREEN_CHANGE
  | USER_ACTION
  | TRANSCRIPT
  | APPLICATION_SWITCH
  | WORKFLOW_STEP.

Global Instance EventType_eq_dec : EqDecision EventType.
Proof. solve_decision. Defined.

Module ToolIdentification.
Record t := {
  name : string;
  type : option string;
  url : option string;
  version : option string
}.
End ToolIdentification.

Module WorkflowStep.
Record t := {
  step_number : option Z;
  action : option string;
  tool_used : option string;
  data_objects : option (list string);
  screenshot_description : option string
}.
End WorkflowStep.

Record VideoEvent := {
  timestamp_ms : option Z;
  event_type : option EventType;
  tool : option ToolIdentification.t;
  description : string;
  workflow_step : option WorkflowStep.t;
  confidence_score : option pynum;
  audio_transcript : option string;
  screenshot_path : option string
}.

(** ** Library interfaces

    [pathlib.Path] is used through [/], [.name] and [str] only; all three
    are kept abstract, and so are [str] on a [float] and [str.lower]. *)

Class PathLib := {
  Path : Type;
  path_div : Path → string → Path;
  path_name : Path → string;
  path_str : Path → string
}.

Class StrFormat := {
  str_of_float : pynum → string;
  str_lower : string → string
}.

(** ** Insertion-ordered dictionaries *)

Section pydict.
Context {K V : Type} `{EqDecision K}.

Fixpoint dict_get (k : K) (d : list (K * V)) : option V :=
  match d with
  | [] => None
  | (k', v) :: d' => if decide (k = k') then Some v else dict_get k d'
  end.

(** [d[k] = v]: an existing key keeps its position, a new key goes last. *)
Fixpoint dict_set (k : K) (v : V) (d : list (K * V)) : list (K * V) :=
  match d with
  | [] => [(k, v)]
  | (k', v') :: d' =>
      if decide (k = k') then (k', v) :: d' else (k', v') :: dict_set k v d'
  end.

Definition dict_keys (d : list (K * V)) : list K := d.*1.
End pydict.

(** ** [_validate_timestamp] (lines 119 to 127)

    [timestamp_ms] is an [int] (the field's type), so the [isinstance] test
    holds and only the sign test remains.  The result is [Some None] when
    the function returns [None], [Some (Some x)] when it returns the float
    [x], and [None] when the division raises [OverflowError]. *)

(** The local [clamped_ms]. *)
Definition clamped_ms (timestamp_ms : Z) (max_duration_ms : pynum) : pynum :=
  let max_timestamp_ms := pn_sub max_duration_ms (of_int 100) in
  py_max (of_int 0) (py_min (of_int timestamp_ms) max_timestamp_ms).

(** An [int] converts to a [float] when it is below this bound, half a unit
    in the last place above the largest float; for a larger one
    [int / float] raises [OverflowError]. *)
Definition float_limit : Z := 2 ^ 1024 - 2 ^ 970.

(** Whether [clamped_ms / 1000.0] can be computed for a timestamp that is
    not negative.  [clamped_ms] is the [int] 0, the float
    [max_timestamp_ms], or the timestamp itself, an [int], when that does
    not exceed the float.  A float divides; an [int] is converted first.
    Under a finite duration a timestamp that is kept as it is does not
    exceed a finite float, and converts.  Under an infinite duration, and
    under one that is not a number, the timestamp is always kept as it
    is. *)
Definition converts (timestamp_ms : Z) (max_duration_ms : pynum) : bool :=
  match max_duration_ms with
  | PInf | NaN => bool_decide (timestamp_ms < float_limit)
  | Fin _ | NInf => true
  end.

Definition _validate_timestamp (timestamp_ms : Z) (max_duration_ms : pynum)
    : option (option pynum) :=
  if bool_decide (timestamp_ms < 0) then Some None
  else if converts timestamp_ms max_duration_ms then
    Some (Some (pn_div (clamped_ms timestamp_ms max_duration_ms) (Fin 1000)))
  else None.

(** ** [_deduplicate_timestamps] (lines 129 to 141) *)

(** [sorted(set(timestamps_ms))]: the distinct elements in ascending order. *)
Definition sorted_set (timestamps_ms : list Z) : list Z :=
  merge_sort Z.le (remove_dups timestamps_ms).

(** One iteration of the [for ts in sorted_timestamps[1:]] loop; the
    accumulator is the list [deduplicated], whose last element is
    [deduplicated[-1]].  The accumulator is never empty when the loop runs. *)
Definition dedup_step (threshold : Z) (deduplicated : list Z) (ts : Z) : list Z :=
  match last deduplicated with
  | Some prev =>
      if bool_decide (threshold ≤ ts - prev) then deduplicated ++ [ts]
      else deduplicated
  | None => deduplicated
  end.

Definition _deduplicate_timestamps (config : ScreenshotConfig)
    (timestamps_ms : list Z) : list Z :=
  match timestamps_ms with
  | [] => []
  | _ =>
      match sorted_set timestamps_ms with
      | [] => []
      | first :: rest =>
          foldl (dedup_step (dedup_threshold_ms config)) [first] rest
      end
  end.

(** The same sweep written by recursion on the remaining input, carrying the
    last kept timestamp; [dedup_unfold] below relates the two. *)
Fixpoint sweep (threshold prev : Z) (rest : list Z) : list Z :=
  match rest with
  | [] => []
  | ts :: rest' =>
      if bool_decide (threshold ≤ ts - prev) then ts :: sweep threshold ts rest'
      else sweep threshold prev rest'
  end.

(** ** [_prepare_extraction_tasks] (lines 234 to 266) *)

(** [f"{n:03d}"]: decimal, padded with zeros on the left to three digits. *)
Definition format_03d (n : nat) : string :=
  let s := NilZero.string_of_uint (Nat.to_uint n) in
  String.concat "" (replicate (3 - String.length s) "0"%string) +:+ s.

(** [f"{z}"] for an [int]. *)
Definition format_int (z : Z) : string := NilZero.string_of_int (Z.to_int z).

(** [f"event_{first_event_idx+1:03d}_{timestamp_ms}ms.{image_format}"] *)
Definition screenshot_filename (config : ScreenshotConfig)
    (first_event_idx : nat) (timestamp_ms : Z) : string :=
  "event_" +:+ format_03d (first_event_idx + 1) +:+ "_"
  +:+ format_int timestamp_ms +:+ "ms." +:+ image_format config.

(** [timestamp_to_events.setdefault(ts, []).append(i)] *)
Definition setdefault_append (d : list (Z * list nat)) (ts : Z) (i : nat)
    : list (Z * list nat) :=
  match dict_get ts d with
  | Some indices => dict_set ts (indices ++ [i]) d
  | None => dict_set ts [i] d
  end.

(** The first loop of [_prepare_extraction_tasks],
    [for i, event in enumerate(events)]: event indices grouped by timestamp,
    events without a timestamp skipped.  [i] is the index of the head of
    [events]. *)
Fixpoint collect_loop (i : nat) (events : list VideoEvent)
    (timestamp_to_events : list (Z * list nat)) : list (Z * list nat) :=
  match events with
  | [] => timestamp_to_events
  | event :: events' =>
      collect_loop (S i) events'
        match timestamp_ms event with
        | Some ts => setdefault_append timestamp_to_events ts i
        | None => timestamp_to_events
        end
  end.

Definition collect_timestamps (events : list VideoEvent) : list (Z * list nat) :=
  collect_loop 0 events [].

Section planner.
Context {paths : PathLib}.

(** A task is [(timestamp_sec, output_path, event_index)]. *)
Definition Task : Type := pynum * Path * nat.

(** One iteration of the second loop.  [None] stands for an exception: the
    [OverflowError] of [_validate_timestamp], or the [KeyError] or
    [IndexError] that [timestamp_to_events[timestamp_ms][0]] would raise. *)
Definition plan_step (config : ScreenshotConfig)
    (timestamp_to_events : list (Z * list nat)) (video_duration_ms : pynum)
    (screenshots_dir : Path)
    (extraction_tasks : option (list (Z * Task))) (timestamp_ms : Z)
    : option (list (Z * Task)) :=
  tasks ← extraction_tasks;
  validated ← _validate_timestamp timestamp_ms video_duration_ms;
  match validated with
  | None => Some tasks
  | Some timestamp_sec =>
      match dict_get timestamp_ms timestamp_to_events with
      | Some (first_event_idx :: _) =>
          let filename :=
            screenshot_filename config first_event_idx timestamp_ms in
          let output_path := path_div screenshots_dir filename in
          Some (dict_set timestamp_ms
                  (timestamp_sec, output_path, first_event_idx) tasks)
      | _ => None
      end
  end.

Definition _prepare_extraction_tasks (config : ScreenshotConfig)
    (events : list VideoEvent) (video_duration_ms : pynum)
    (screenshots_dir : Path) : option (list (Z * Task)) :=
  let timestamp_to_events := collect_timestamps events in
  let unique_timestamps :=
    _deduplicate_timestamps config (dict_keys timestamp_to_events) in
  foldl (plan_step config timestamp_to_events video_duration_ms screenshots_dir)
        (Some []) unique_timestamps.
End planner.

(** ** [_get_video_duration_ms] (lines 143 to 232)

    The parsed standard output of ffprobe is a JSON value as [json.loads]
    returns it.  A JSON number is a [pynum]; the members of an object are
    kept in document order, and a repeated key takes its last value, as in
    the dictionary [json.loads] builds. *)

#[local] Unset Elimination Schemes.
Inductive json : Type :=
  | JNull
  | JBool (b : bool)
  | JNum (x : pynum)
  | JStr (s : string)
  | JArr (items : list json)
  | JObj (members : list (string * json)).
#[local] Set Elimination Schemes.

(** [float(s)] and [int(s)] on a string; [None] is [ValueError]. *)
Class StrParsing := {
  float_of_str : string → option pynum;
  int_of_str : string → option Z
}.

(** The outcome of [subprocess.run(cmd, ..., timeout=...)] followed by
    [json.loads(result.stdout)]: the call times out, raises another
    exception, or completes with a return code and an output that parses
    ([Some]) or does not ([None], [JSONDecodeError]). *)
Inductive proc_result : Type :=
  | TimeoutExpired
  | RunRaised
  | Completed (returncode : Z) (stdout_json : option json).

(** What one pass through the body of the [try] does: it returns a duration,
    falls through to the next method, or raises (caught, logged, next
    method). *)
Inductive method_outcome : Type :=
  | Found (duration_ms : pynum)
  | NoValue
  | Failed.

(** Truth value of a Python object. *)
Definition py_truthy (v : json) : bool :=
  match v with
  | JNull => false
  | JBool b => b
  | JNum x => negb (pn_is_zero x)
  | JStr s => negb (bool_decide (s = ""))
  | JArr items => negb (bool_decide (items = []))
  | JObj members => negb (bool_decide (members = []))
  end.

(** [v != "N/A"] *)
Definition is_not_NA (v : json) : bool :=
  match v with
  | JStr s => negb (bool_decide (s = "N/A"))
  | _ => true
  end.

(** [o.get(key, dflt)]; [None] is the [AttributeError] of a value that is
    not a dictionary. *)
Definition py_get (o : json) (key : string) (dflt : json) : option json :=
  match o with
  | JObj members => Some (default dflt (dict_get key (reverse members)))
  | _ => None
  end.

(** [streams[0]] for a truthy [streams]; [None] is the [KeyError] or
    [TypeError] of a value that is neither a list nor a string. *)
Definition py_first (streams : json) : option json :=
  match streams with
  | JArr (x :: _) => Some x
  | JStr (String c _) => Some (JStr (String c ""))
  | _ => None
  end.

(** [s.split(sep)] for a one-character separator. *)
Fixpoint str_split (sep : ascii) (s : string) : list string :=
  match s with
  | EmptyString => [EmptyString]
  | String c s' =>
      if decide (c = sep) then EmptyString :: str_split sep s'
      else match str_split sep s' with
           | part :: parts => String c part :: parts
           | [] => [String c EmptyString]
           end
  end.

(** [sep in s] *)
Fixpoint str_contains (sep : ascii) (s : string) : bool :=
  match s with
  | EmptyString => false
  | String c s' => if decide (c = sep) then true else str_contains sep s'
  end.

Section probe.
Context {parsing : StrParsing}.

(** [float(v)]; [None] is [ValueError] or [TypeError]. *)
Definition py_float (v : json) : option pynum :=
  match v with
  | JStr s => float_of_str s
  | JNum x => Some x
  | JBool b => Some (of_int (if b then 1 else 0))
  | _ => None
  end.

(** [int(v)]: a string is parsed, a finite number is truncated towards
    zero. *)
Definition py_int (v : json) : option Z :=
  match v with
  | JStr s => int_of_str s
  | JNum (Fin q) => Some (Z.quot (Qnum q) (Z.pos (Qden q)))
  | JBool b => Some (if b then 1 else 0)
  | _ => None
  end.

(** [if duration_sec and duration_sec != "N/A":
       return float(duration_sec) * 1000] *)
Definition duration_of_field (duration_sec : json) : method_outcome :=
  if py_truthy duration_sec && is_not_NA duration_sec then
    match py_float duration_sec with
    | Some x => Found (pn_mul x (of_int 1000))
    | None => Failed
    end
  else NoValue.

(** Branch [i == 0]: duration of the container. *)
Definition format_method (data : json) : method_outcome :=
  match py_get data "format" (JObj []) with
  | None => Failed
  | Some format =>
      match py_get format "duration" JNull with
      | None => Failed
      | Some duration_sec => duration_of_field duration_sec
      end
  end.

(** Branch [i == 1]: duration of the first video stream. *)
Definition stream_method (data : json) : method_outcome :=
  match py_get data "streams" (JArr []) with
  | None => Failed
  | Some streams =>
      if py_truthy streams then
        match py_first streams with
        | None => Failed
        | Some stream =>
            match py_get stream "duration" JNull with
            | None => Failed
            | Some duration_sec => duration_of_field duration_sec
            end
        end
      else NoValue
  end.

(** The frame rate: ["30/1"] is a quotient, anything else goes through
    [float].  A value that is not a string raises in every case. *)
Definition parse_fps (frame_rate : json) : option pynum :=
  match frame_rate with
  | JStr s =>
      if str_contains "/" s then
        match str_split "/" s with
        | [num; den] =>
            n ← float_of_str num; d ← float_of_str den; py_truediv n d
        | _ => None
        end
      else float_of_str s
  | _ => None
  end.

(** Branch [i == 2]: frames read divided by the frame rate. *)
Definition frame_count_method (data : json) : method_outcome :=
  match py_get data "streams" (JArr []) with
  | None => Failed
  | Some streams =>
      if py_truthy streams then
        match py_first streams with
        | None => Failed
        | Some stream =>
            match py_get stream "nb_read_frames" JNull,
                  py_get stream "r_frame_rate" JNull with
            | Some frame_count, Some frame_rate =>
                if py_truthy frame_count && py_truthy frame_rate then
                  match parse_fps frame_rate with
                  | None => Failed
                  | Some fps =>
                      match py_int frame_count with
                      | None => Failed
                      | Some n =>
                          match py_truediv (of_int n) fps with
                          | None => Failed
                          | Some duration_sec =>
                              Found (pn_mul duration_sec (of_int 1000))
                          end
                      end
                  end
                else NoValue
            | _, _ => Failed
            end
        end
      else NoValue
  end.

(** The body of the [try] for method [i]. *)
Definition try_method (i : nat) (r : proc_result) : method_outcome :=
  match r with
  | TimeoutExpired => Failed
  | RunRaised => Failed
  | Completed returncode stdout_json =>
      if bool_decide (returncode = 0) then
        match stdout_json with
        | None => Failed
        | Some data =>
            match i with
            | 0%nat => format_method data
            | 1%nat => stream_method data
            | 2%nat => frame_count_method data
            | _ => NoValue
            end
        end
      else NoValue
  end.

(** [for i, cmd in enumerate(methods)]: [ffprobe i] is what running the
    command of method [i] does.  The second component lists the methods
    that were run, in order.  Nothing in the loop escapes its handlers, so
    the outer [try] never catches anything. *)
Fixpoint probe_loop (ffprobe : nat → proc_result) (methods : list nat)
    (ran : list nat) : option pynum * list nat :=
  match methods with
  | [] => (None, ran)
  | i :: methods' =>
      match try_method i (ffprobe i) with
      | Found duration_ms => (Some duration_ms, ran ++ [i])
      | NoValue | Failed => probe_loop ffprobe methods' (ran ++ [i])
      end
  end.

Definition probe_run (ffprobe : nat → proc_result) : option pynum * list nat :=
  probe_loop ffprobe [0; 1; 2]%nat [].

Definition _get_video_duration_ms (ffprobe : nat → proc_result)
    : option pynum :=
  (probe_run ffprobe).1.
End probe.

(** ** [_build_ffmpeg_command] (lines 268 to 306) *)

Section command.
Context {paths : PathLib} {format : StrFormat}.

(** [video_path] is already a string.  In the fast-seek branch
    [timestamp_sec] exceeds 10, so [max(0, timestamp_sec - 5)] is the
    float. *)
Definition _build_ffmpeg_command (config : ScreenshotConfig)
    (video_path : string) (timestamp_sec : pynum) (output_path : Path)
    : list string :=
  let cmd := ["ffmpeg"%string] in
  let cmd :=
    if fast_seek config && pn_ltb (of_int 10) timestamp_sec
    then cmd ++ ["-ss"%string;
                 str_of_float
                   (py_max (of_int 0) (pn_sub timestamp_sec (of_int 5)))]
    else cmd in
  let cmd :=
    cmd ++ ["-i"%string; video_path;
            "-ss"%string; str_of_float timestamp_sec;
            "-frames:v"%string; "1"%string] in
  let cmd :=
    cmd ++ ["-vf"%string; "scale=trunc(iw/2)*2:trunc(ih/2)*2"%string;
            "-pix_fmt"%string; "yuv420p"%string;
            "-strict"%string; "unofficial"%string] in
  let cmd :=
    if bool_decide (str_lower (image_format config) = "jpg"%string)
    then cmd ++ ["-q:v"%string; format_int (image_quality config);
                 "-huffman"%string; "optimal"%string]
    else if bool_decide (str_lower (image_format config) = "png"%string)
    then cmd ++ ["-compression_level"%string;
                 format_int (Z.min 9 (image_quality config));
                 "-pix_fmt"%string; "rgba"%string]
    else cmd in
  cmd ++ ["-y"%string; path_str output_path].
End command.

(** ** [_extract_single_screenshot] and [_batch_extract_screenshots]
    (lines 308 to 381) *)

(** What running ffmpeg does: [subprocess.run] times out, raises another
    exception, or completes with a return code, after which the output file
    exists or not. *)
Inductive ffmpeg_result : Type :=
  | FfmpegTimeout
  | FfmpegRaised
  | FfmpegExited (returncode : Z) (output_exists : bool).

(** [future.result()]: the value the task returned, or an exception. *)
Inductive future_result : Type :=
  | FutureReturned (success : bool)
  | FutureRaised.

Section executor.
Context {paths : PathLib}.

(** [ffmpeg timestamp_sec output_path] is what running the command that
    [_build_ffmpeg_command] builds for this time and this output file does.
    The result of the function does not depend on the semaphore it holds
    while ffmpeg runs; the semaphore is the subject of the section on
    admission control. *)
Definition _extract_single_screenshot
    (ffmpeg : pynum → Path → ffmpeg_result)
    (timestamp_sec : pynum) (output_path : Path) : bool :=
  match ffmpeg timestamp_sec output_path with
  | FfmpegExited returncode output_exists =>
      bool_decide (returncode = 0) && output_exists
  | FfmpegTimeout => false
  | FfmpegRaised => false
  end.

(** One iteration of [for future in as_completed(future_to_timestamp)]. *)
Definition collect_result (extraction_tasks : list (Z * Task))
    (outcome : Z → future_result)
    (results : gmap Z (option string)) (timestamp_ms : Z)
    : gmap Z (option string) :=
  match outcome timestamp_ms with
  | FutureReturned true =>
      match dict_get timestamp_ms extraction_tasks with
      | Some (_, output_path, _) =>
          <[timestamp_ms := Some (path_name output_path)]> results
      | None => <[timestamp_ms := None]> results
      end
  | FutureReturned false => <[timestamp_ms := None]> results
  | FutureRaised => <[timestamp_ms := None]> results
  end.

(** [completed] is the order in which [as_completed] yields the futures,
    given by the timestamps they were submitted for.  This is what the
    function does once the executor exists; that
    [ThreadPoolExecutor(max_workers=...)] raises for a number of workers
    that is not positive is part of [extract_event_screenshots] below. *)
Definition _batch_extract_screenshots (extraction_tasks : list (Z * Task))
    (completed : list Z) (outcome : Z → future_result)
    : gmap Z (option string) :=
  foldl (collect_result extraction_tasks outcome) ∅ completed.
End executor.

(** ** [_update_events_with_screenshots] (lines 383 to 394) *)

Definition set_screenshot_path (event : VideoEvent) (p : option string)
    : VideoEvent :=
  {| timestamp_ms := timestamp_ms event;
     event_type := event_type event;
     tool := tool event;
     description := description event;
     workflow_step := workflow_step event;
     confidence_score := confidence_score event;
     audio_transcript := audio_transcript event;
     screenshot_path := p |}.

(** The body of [for event in events]. *)
Definition bind_event (config : ScreenshotConfig)
    (screenshot_results : gmap Z (option string)) (event : VideoEvent)
    : VideoEvent :=
  match timestamp_ms event with
  | Some ts =>
      match screenshot_results !! ts with
      | Some (Some artifact) =>
          if negb (bool_decide (artifact = "")) then
            set_screenshot_path event
              (Some (screenshot_subdir config +:+ "/" +:+ artifact))
          else event
      | Some None => event
      | None => event
      end
  | None => event
  end.

(** The events are distinct objects, so updating each in place is a map. *)
Definition _update_events_with_screenshots (config : ScreenshotConfig)
    (events : list VideoEvent) (screenshot_results : gmap Z (option string))
    : list VideoEvent :=
  bind_event config screenshot_results <$> events.

(** ** [extract_event_screenshots] (lines 43 to 110) *)

Section pipeline.
Context {paths : PathLib} {parsing : StrParsing}.

(** Everything outside the extractor that one call depends on.
    [resolve_ok] says whether [Path(video_path).resolve()] returns, so that
    [_sanitize_path] (lines 112 to 117) returns rather than raises
    [ValueError]. *)
Record World := {
  resolve_ok : bool;
  video_exists : bool;
  ffprobe : nat → proc_result;
  mkdir_ok : bool;
  ffmpeg : pynum → Path → ffmpeg_result;
  completed : list (Z * Task) → list Z
}.

Definition is_action (event : VideoEvent) : bool :=
  negb (bool_decide (event_type event = Some TRANSCRIPT)).

(** An unknown duration becomes [float('inf')] (lines 79 to 82). *)
Definition clamping_duration (probed : option pynum) : pynum :=
  match probed with
  | None => PInf
  | Some video_duration_ms => video_duration_ms
  end.

(** The result of the future submitted for [timestamp_ms]. *)
Definition task_outcome (w : World) (extraction_tasks : list (Z * Task))
    (timestamp_ms : Z) : future_result :=
  match dict_get timestamp_ms extraction_tasks with
  | Some (timestamp_sec, output_path, _) =>
      FutureReturned
        (_extract_single_screenshot (ffmpeg w) timestamp_sec output_path)
  | None => FutureRaised
  end.

(** [None] is an exception that leaves the function: the [ValueError] of
    [_sanitize_path], the error of [mkdir], the [OverflowError] of
    [_validate_timestamp] in the planner, and the [ValueError] with which
    [ThreadPoolExecutor(max_workers=...)] (line 354) refuses a number of
    workers that is not positive.  [action_events] holds the same objects
    as [events], so the update of the action events in place shows in the
    returned [events]. *)
Definition extract_event_screenshots (config : ScreenshotConfig) (w : World)
    (events : list VideoEvent) (session_dir : Path)
    : option (list VideoEvent) :=
  if bool_decide (events = []) then Some events
  else
    let action_events := filter (λ e, is_action e = true) events in
    if bool_decide (action_events = []) then Some events
    else if negb (resolve_ok w) then None
    else if negb (video_exists w) then Some events
    else
      let video_duration_ms :=
        clamping_duration (_get_video_duration_ms (ffprobe w)) in
      let screenshots_dir := path_div session_dir (screenshot_subdir config) in
      if negb (mkdir_ok w) then None
      else
        extraction_tasks ←
          _prepare_extraction_tasks config action_events video_duration_ms
            screenshots_dir;
        if bool_decide (extraction_tasks = []) then Some events
        else if bool_decide (max_concurrent_extractions config ≤ 0) then None
        else
          let screenshot_results :=
            _batch_extract_screenshots extraction_tasks
              (completed w extraction_tasks)
              (task_outcome w extraction_tasks) in
          Some ((λ e, if is_action e
                      then bind_event config screenshot_results e
                      else e) <$> events).
End pipeline.

(** ** [GeminiClient._upload_file_with_retry]
    ([gemini_client.py], lines 176 to 209) *)

Module GeminiClient.

(** [genai]'s file states. *)
Inductive FileState : Type :=
  | STATE_UNSPECIFIED
  | PROCESSING
  | ACTIVE
  | FAILED.

Global Instance FileState_eq_dec : EqDecision FileState.
Proof. solve_decision. Defined.

Record File := { name : string; state : FileState }.

(** The answer of one call to the remote service. *)
Inductive api_result : Type :=
  | ApiRaised
  | ApiFile (f : File).

(** The remote service: the answer to a call may depend on how many calls
    were made before it. *)
Record Remote := {
  upload_file : nat → api_result;
  get_file : nat → string → api_result
}.

(** What the function does besides computing its result. *)
Inductive effect : Type :=
  | EUpload
  | EGetFile (file_name : string)
  | ESleep (seconds : nat)
  | EPrint.

(** The number of calls made so far and the effects so far, oldest first. *)
Record st := { calls : nat; trace : list effect }.

Definition record (call : bool) (es : list effect) (s : st) : st :=
  {| calls := if call then S (calls s) else calls s;
     trace := trace s ++ es |}.

Inductive poll_outcome : Type :=
  | PollActive (f : File)
  | PollExhausted (f : File)
  | PollRaised.

(** [for _ in range(10)], with [budget] iterations left. *)
Fixpoint poll_loop (remote : Remote) (budget : nat) (uploaded_file : File)
    (s : st) : poll_outcome * st :=
  match budget with
  | O => (PollExhausted uploaded_file, s)
  | S budget' =>
      if bool_decide (state uploaded_file = ACTIVE)
      then (PollActive uploaded_file, s)
      else
        let s1 := record false [ESleep 1] s in
        let s2 := record true [EGetFile (name uploaded_file)] s1 in
        match get_file remote (calls s1) (name uploaded_file) with
        | ApiRaised => (PollRaised, s2)
        | ApiFile f => poll_loop remote budget' f s2
        end
  end.

Inductive attempt_outcome : Type :=
  | AttemptReturn (f : File)
  | AttemptContinue
  | AttemptRaise.

(** The [except Exception as e] handler. *)
Definition on_exception (max_retries attempt : nat) (s : st)
    : attempt_outcome * st :=
  if bool_decide (attempt < max_retries - 1)%nat
  then (AttemptContinue, record false [EPrint; ESleep 2] s)
  else (AttemptRaise, s).

(** The body of [for attempt in range(max_retries)]. *)
Definition one_attempt (remote : Remote) (max_retries attempt : nat) (s : st)
    : attempt_outcome * st :=
  let s1 := record true [EUpload] s in
  match upload_file remote (calls s) with
  | ApiRaised => on_exception max_retries attempt s1
  | ApiFile uploaded_file =>
      match poll_loop remote 10 uploaded_file s1 with
      | (PollActive f, s2) => (AttemptReturn f, s2)
      | (PollRaised, s2) => on_exception max_retries attempt s2
      | (PollExhausted f, s2) =>
          if negb (bool_decide (state f = ACTIVE)) then
            let s3 := record false [EPrint] s2 in
            if bool_decide (attempt < max_retries - 1)%nat
            then (AttemptContinue, record false [ESleep 2] s3)
            else on_exception max_retries attempt s3
          else (AttemptReturn f, s2)
      end
  end.

Inductive upload_result : Type :=
  | Returned (f : File)
  | ReturnedNone
  | Raised.

(** The [for] loop from [attempt] on, [remaining] iterations left.  A loop
    that runs out returns [None], as a Python function without [return]
    does. *)
Fixpoint attempt_loop (remote : Remote) (max_retries remaining attempt : nat)
    (s : st) : upload_result * st :=
  match remaining with
  | O => (ReturnedNone, s)
  | S remaining' =>
      match one_attempt remote max_retries attempt s with
      | (AttemptReturn f, s') => (Returned f, s')
      | (AttemptRaise, s') => (Raised, s')
      | (AttemptContinue, s') =>
          attempt_loop remote max_retries remaining' (S attempt) s'
      end
  end.

Definition _upload_file_with_retry (remote : Remote) (max_retries : nat)
    : upload_result * st :=
  attempt_loop remote max_retries max_retries 0
    {| calls := 0; trace := [] |}.

(** The default [max_retries: int = 3]. *)
Definition default_max_retries : nat := 3.

(** Vocabulary of the statements: how often a trace uploads, polls, and
    sleeps the second that precedes a poll. *)
Definition is_upload (e : effect) : bool :=
  match e with EUpload => true | _ => false end.

Definition is_poll (e : effect) : bool :=
  match e with EGetFile _ => true | _ => false end.

Definition is_poll_sleep (e : effect) : bool :=
  match e with ESleep 1 => true | _ => false end.

Fixpoint count (p : effect → bool) (t : list effect) : nat :=
  match t with
  | [] => 0
  | e :: t' => (if p e then 1 else 0) + count p t'
  end.

(** A remote service that answers every call and never reports a file as
    active. *)
Definition never_active (remote : Remote) : Prop :=
  (∀ n, ∃ f, upload_file remote n = ApiFile f ∧ state f ≠ ACTIVE)
  ∧ (∀ n file_name,
       ∃ f, get_file remote n file_name = ApiFile f ∧ state f ≠ ACTIVE).

(** The file stays in [PROCESSING] for ever. *)
Definition stuck_remote : Remote :=
  {| upload_file := λ _, ApiFile {| name := "files/abc"; state := PROCESSING |};
     get_file := λ _ file_name,
       ApiFile {| name := file_name; state := PROCESSING |} |}.

(** The file is active at the third poll of the second attempt; the first
    attempt's upload raises. *)
Definition slow_remote : Remote :=
  {| upload_file := λ n,
       if bool_decide (n = 0%nat) then ApiRaised
       else ApiFile {| name := "files/abc"; state := PROCESSING |};
     get_file := λ n file_name,
       ApiFile {| name := file_name;
                  state := if bool_decide (n < 4)%nat then PROCESSING
                           else ACTIVE |} |}.

End GeminiClient.

(** ** Admission control

    [self._semaphore = threading.Semaphore(max_concurrent_extractions)] and
    the block [with self._semaphore:] around the call of ffmpeg in
    [_extract_single_screenshot], as a transition system.  A submitted task
    is queued until its worker enters the block, in flight while it is
    inside, finished after it has left. *)

Inductive phase : Type :=
  | Queued
  | InFlight
  | Finished.

Global Instance phase_eq_dec : EqDecision phase.
Proof. solve_decision. Defined.

(** The counter of the semaphore and the phase of every submitted task. *)
Record pool := { permits : Z; phases : list phase }.

Definition in_flight (s : pool) : nat :=
  length (filter (λ p, p = InFlight) (phases s)).

(** [acquire] blocks unless the counter is positive and decrements it;
    leaving the block increments it. *)
Inductive pool_step : pool → pool → Prop :=
  | step_acquire s i :
      phases s !! i = Some Queued →
      0 < permits s →
      pool_step s {| permits := permits s - 1;
                     phases := <[i := InFlight]> (phases s) |}
  | step_release s i :
      phases s !! i = Some InFlight →
      pool_step s {| permits := permits s + 1;
                     phases := <[i := Finished]> (phases s) |}.

(** The state after [n] tasks were submitted to the executor. *)
Definition pool_init (config : ScreenshotConfig) (n : nat) : pool :=
  {| permits := max_concurrent_extractions config;
     phases := replicate n Queued |}.

(** ** Vocabulary of the statements *)

(** Two timestamps the sweep keeps: the later one is at least the threshold
    past the earlier one. *)
Definition apart (threshold a b : Z) : Prop := a < b ∧ threshold ≤ b - a.

(** The indices, from [i] on, of the events whose timestamp is [ts]. *)
Fixpoint indices_from (i : nat) (events : list VideoEvent) (ts : Z) : list nat :=
  match events with
  | [] => []
  | event :: events' =>
      if decide (timestamp_ms event = Some ts)
      then i :: indices_from (S i) events' ts
      else indices_from (S i) events' ts
  end.

(** The index of the first event whose timestamp is [ts]. *)
Definition first_index (events : list VideoEvent) (ts : Z) : option nat :=
  fst <$> list_find (λ e, timestamp_ms e = Some ts) events.

(** The candidate timestamps of a list of events, and those that survive
    deduplication. *)
Definition candidates (events : list VideoEvent) : list Z :=
  dict_keys (collect_timestamps events).

Definition kept (config : ScreenshotConfig) (events : list VideoEvent) : list Z :=
  _deduplicate_timestamps config (candidates events).

(** The task the planner creates for a kept timestamp, if any. *)
Definition planned_task {paths : PathLib} (config : ScreenshotConfig)
    (timestamp_to_events : list (Z * list nat)) (video_duration_ms : pynum)
    (screenshots_dir : Path) (ts : Z) : option (Z * Task) :=
  timestamp_sec ← mjoin (_validate_timestamp ts video_duration_ms);
  match dict_get ts timestamp_to_events with
  | Some (i :: _) =>
      Some (ts, (timestamp_sec,
                 path_div screenshots_dir (screenshot_filename config i ts), i))
  | _ => None
  end.

(** [_validate_timestamp] returns for this timestamp rather than raises. *)
Definition plannable (video_duration_ms : pynum) (ts : Z) : bool :=
  bool_decide (ts < 0) || converts ts video_duration_ms.

(** An event that carries only a timestamp. *)
Definition event_at (ts : Z) : VideoEvent :=
  {| timestamp_ms := Some ts; event_type := Some USER_ACTION; tool := None;
     description := ""; workflow_step := None; confidence_score := None;
     audio_transcript := None; screenshot_path := None |}.

(** A file path as a string, for the worked examples. *)
Fixpoint basename_go (acc s : string) : string :=
  match s with
  | EmptyString => acc
  | String c s' =>
      if decide (c = "/"%char) then basename_go EmptyString s'
      else basename_go (acc +:+ String c EmptyString) s'
  end.

Definition string_paths : PathLib :=
  {| Path := string;
     path_div := λ p name, p +:+ "/" +:+ name;
     path_name := basename_go EmptyString;
     path_str := λ p, p |}.

(** Whether a future reports success. *)
Definition succeeded (r : future_result) : bool :=
  match r with
  | FutureReturned success => success
  | FutureRaised => false
  end.

(** The entry the executor records for a timestamp. *)
Definition outcome_entry {paths : PathLib} (extraction_tasks : list (Z * Task))
    (outcome : Z → future_result) (ts : Z) : option string :=
  if succeeded (outcome ts) then
    match dict_get ts extraction_tasks with
    | Some (_, output_path, _) => Some (path_name output_path)
    | None => None
    end
  else None.

(** [as_completed] yields every submitted future once, in some order. *)
Definition as_completed_ok {paths : PathLib} (w : World) : Prop :=
  ∀ extraction_tasks,
    completed w extraction_tasks ≡ₚ dict_keys extraction_tasks.

(** ** Sample instances for the worked examples *)

(** Plain decimal literals, [digits] or [digits.digits] with an optional
    minus sign, read as Python reads them.  Python's [float] and [int] accept
    more forms (exponents, blanks, [inf], [nan]); this instance rejects them
    and is used on plain literals only. *)
Definition digit_of (c : ascii) : option Z :=
  let n := Z.of_nat (nat_of_ascii c) in
  if bool_decide (48 ≤ n ≤ 57) then Some (n - 48) else None.

Fixpoint digits_go (acc : Z) (s : string) : option Z :=
  match s with
  | EmptyString => Some acc
  | String c s' => d ← digit_of c; digits_go (10 * acc + d) s'
  end.

Definition digits (s : string) : option Z :=
  if bool_decide (s = "") then None else digits_go 0 s.

Definition signed {A} (parse : string → option A) (neg : A → A) (s : string)
    : option A :=
  match s with
  | String "-" s' => neg <$> parse s'
  | _ => parse s
  end.

Definition unsigned_decimal (s : string) : option pynum :=
  match str_split "." s with
  | [whole] => n ← digits whole; Some (Fin (inject_Z n))
  | [whole; frac] =>
      n ← digits whole; m ← digits frac;
      let scale := 10 ^ Z.of_nat (String.length frac) in
      Some (Fin (Qred (inject_Z (n * scale + m) / inject_Z scale)))
  | _ => None
  end.

Definition decimal_parsing : StrParsing :=
  {| float_of_str := signed unsigned_decimal pn_neg;
     int_of_str := signed digits Z.opp |}.



(** The container has no duration, the video stream lasts 12.5 seconds. *)
Definition stream_duration_report (i : nat) : proc_result :=
  match i with
  | 0%nat =>
      Completed 0
        (Some (JObj [("format"%string,
                      JObj [("duration"%string, JStr "N/A")])]))
  | _ =>
      Completed 0
        (Some (JObj [("streams"%string,
                      JArr [JObj [("codec_name"%string, JStr "vp8");
                                  ("duration"%string, JStr "12.500000")]])]))
  end.

(** ffprobe times out whatever it is asked. *)
Definition ffprobe_times_out (i : nat) : proc_result := TimeoutExpired.

(** A world in which the video exists, ffprobe times out, the directory can
    be made, ffmpeg succeeds and the futures complete in submission order. *)
Definition sample_world : World (paths := string_paths) :=
  {| resolve_ok := true;
     video_exists := true;
     ffprobe := ffprobe_times_out;
     mkdir_ok := true;
     ffmpeg := λ _ _, FfmpegExited 0 true;
     completed := λ extraction_tasks, dict_keys extraction_tasks |}.



(** The futures complete in the reverse of the submission order. *)
Definition last_first
    (extraction_tasks : list (Z * Task (paths := string_paths))) : list Z :=
  reverse (dict_keys extraction_tasks).

(** ** Vocabulary of the further properties *)

(** The seconds a trace spends in [time.sleep]. *)
Fixpoint sleep_seconds (t : list GeminiClient.effect) : nat :=
  match t with
  | [] => 0
  | GeminiClient.ESleep seconds :: t' => seconds + sleep_seconds t'
  | _ :: t' => sleep_seconds t'
  end.

(** What a piece of an upload adds to the state: uploads, polls (both are
    remote calls) and seconds asleep. *)
Definition adds (s s' : GeminiClient.st) (uploads polls seconds : nat) : Prop :=
  GeminiClient.calls s' = (GeminiClient.calls s + uploads + polls)%nat
  ∧ GeminiClient.count GeminiClient.is_upload (GeminiClient.trace s')
    = (GeminiClient.count GeminiClient.is_upload (GeminiClient.trace s)
       + uploads)%nat
  ∧ GeminiClient.count GeminiClient.is_poll (GeminiClient.trace s')
    = (GeminiClient.count GeminiClient.is_poll (GeminiClient.trace s)
       + polls)%nat
  ∧ sleep_seconds (GeminiClient.trace s')
    = (sleep_seconds (GeminiClient.trace s) + seconds)%nat.

(** The tasks of a pool that are in a given phase. *)
Definition in_phase (p : phase) (s : pool) : nat :=
  length (filter (λ x, x = p) (phases s)).

(** The transitions a pool still has to make: a queued task enters and
    leaves the block, a task in flight leaves it. *)
Definition pending (s : pool) : nat :=
  (2 * in_phase Queued s + in_phase InFlight s)%nat.

(** ** Analysis of the video ([gemini_client.py])

    [parse_video_events_response] (lines 100 to 137),
    [GeminiClient.analyze_video_chunk] (lines 211 to 282) and
    [GeminiClient.batch_analyze_chunks] (lines 348 to 370). *)

Module VideoAnalysis.
Import GeminiClient.

(** The exceptions the analysis tells apart.  [json.JSONDecodeError] and
    pydantic's [ValidationError] are [ValueError]s; [ValueError value] is the
    one that [EventType(value)] and [int(value)] raise; [OtherError] stands
    for every exception that is not a [ValueError] ([AttributeError],
    [TypeError], [KeyError], [OverflowError]). *)
Inductive exn : Type :=
  | JSONDecodeError
  | ValueError (value : json)
  | ValidationError (model : string)
  | OtherError.

(** [isinstance(e, (json.JSONDecodeError, ValueError))] *)
Definition is_ValueError (e : exn) : bool :=
  match e with
  | OtherError => false
  | _ => true
  end.

(** A value or a raised exception. *)
Inductive result (A : Type) : Type :=
  | Ok (a : A)
  | Raise (e : exn).
Arguments Ok {A} a.
Arguments Raise {A} e.

Global Instance result_bind : MBind result :=
  λ A B f r, match r with Ok a => f a | Raise e => Raise e end.
Global Instance result_fmap : FMap result :=
  λ A B f r, match r with Ok a => Ok (f a) | Raise e => Raise e end.

(** What the client takes from its libraries: [json.loads], [str] of an
    exception, and the text of the prompt, which is the configured prompt
    followed by an f-string that names the start and the end of the
    chunk. *)
Class ClientLib := {
  json_loads : string → result json;
  str_exn : exn → string;
  video_analysis_prompt : string → pynum → pynum → string;
  audio_transcription_prompt : string → string
}.

(** Validation of one value against a field type by pydantic; [None] is a
    value the type does not accept. *)
Class Pydantic := {
  validate_str : json → option string;
  validate_int : json → option Z;
  validate_float : json → option pynum;
  validate_list_str : json → option (list string)
}.

(** [Optional[T]]: [None] is accepted as it is, any other value is validated
    against [T]. *)
Definition optional {A} (validate : json → option A) (v : json)
    : option (option A) :=
  match v with
  | JNull => Some None
  | _ => Some <$> validate v
  end.

(** [o.get(key, dflt)]; a value that is not a dictionary has no [get]. *)
Definition get (o : json) (key : string) (dflt : json) : result json :=
  match py_get o key dflt with
  | Some v => Ok v
  | None => Raise OtherError
  end.

(** The dictionary [json.loads] builds from the members of an object. *)
Definition py_dict (members : list (string * json)) : list (string * json) :=
  foldl (λ d member, dict_set member.1 member.2 d) [] members.

(** What [for x in v] iterates over: the items of a list, the characters of
    a string, the keys of a dictionary; other values are not iterable. *)
Definition py_iter (v : json) : result (list json) :=
  match v with
  | JArr items => Ok items
  | JStr s => Ok ((λ c, JStr (String c "")) <$> list_ascii_of_string s)
  | JObj members => Ok (JStr <$> dict_keys (py_dict members))
  | _ => Raise OtherError
  end.

(** [EventType(value)] *)
Definition EventType_of (value : json) : result EventType :=
  match value with
  | JStr s =>
      if bool_decide (s = "SCREEN_CHANGE") then Ok SCREEN_CHANGE
      else if bool_decide (s = "USER_ACTION") then Ok USER_ACTION
      else if bool_decide (s = "TRANSCRIPT") then Ok TRANSCRIPT
      else if bool_decide (s = "APPLICATION_SWITCH") then Ok APPLICATION_SWITCH
      else if bool_decide (s = "WORKFLOW_STEP") then Ok WORKFLOW_STEP
      else Raise (ValueError value)
  | _ => Raise (ValueError value)
  end.

Section models.
Context {pydantic : Pydantic}.

(** [ToolIdentification(name=..., type=..., url=..., version=...)] *)
Definition ToolIdentification_new (name type url version : json)
    : result ToolIdentification.t :=
  match validate_str name, optional validate_str type,
        optional validate_str url, optional validate_str version with
  | Some name, Some type, Some url, Some version =>
      Ok {| ToolIdentification.name := name;
            ToolIdentification.type := type;
            ToolIdentification.url := url;
            ToolIdentification.version := version |}
  | _, _, _, _ => Raise (ValidationError "ToolIdentification")
  end.

(** [WorkflowStep(step_number=..., ...)] *)
Definition WorkflowStep_new
    (step_number action tool_used data_objects screenshot_description : json)
    : result WorkflowStep.t :=
  match optional validate_int step_number, optional validate_str action,
        optional validate_str tool_used,
        optional validate_list_str data_objects,
        optional validate_str screenshot_description with
  | Some step_number, Some action, Some tool_used, Some data_objects,
    Some screenshot_description =>
      Ok {| WorkflowStep.step_number := step_number;
            WorkflowStep.action := action;
            WorkflowStep.tool_used := tool_used;
            WorkflowStep.data_objects := data_objects;
            WorkflowStep.screenshot_description := screenshot_description |}
  | _, _, _, _, _ => Raise (ValidationError "WorkflowStep")
  end.

(** [VideoEvent(timestamp_ms=..., event_type=..., tool=..., description=...,
    workflow_step=..., confidence_score=...)]: the event type, the tool and
    the workflow step are already instances; the two fields that are not
    passed take their default [None]. *)
Definition VideoEvent_new (v_timestamp_ms : json)
    (v_event_type : option EventType) (v_tool : option ToolIdentification.t)
    (v_description : json) (v_workflow_step : option WorkflowStep.t)
    (v_confidence_score : json) : result VideoEvent :=
  match optional validate_int v_timestamp_ms, validate_str v_description,
        optional validate_float v_confidence_score with
  | Some v_timestamp_ms, Some v_description, Some v_confidence_score =>
      Ok {| timestamp_ms := v_timestamp_ms;
            event_type := v_event_type;
            tool := v_tool;
            description := v_description;
            workflow_step := v_workflow_step;
            confidence_score := v_confidence_score;
            audio_transcript := None;
            screenshot_path := None |}
  | _, _, _ => Raise (ValidationError "VideoEvent")
  end.

(** The body of [for event_data in ...]: the event built from one entry. *)
Definition parse_event (event_data : json) : result VideoEvent :=
  tool_data ← get event_data "tool" JNull;
  tool ←
    (if py_truthy tool_data then
       name ← get tool_data "name" (JStr "Unknown");
       type ← get tool_data "type" JNull;
       url ← get tool_data "url" JNull;
       version ← get tool_data "version" JNull;
       Some <$> ToolIdentification_new name type url version
     else Ok None);
  ws ← get event_data "workflow_step" JNull;
  workflow_step ←
    (if py_truthy ws then
       step_number ← get ws "step_number" JNull;
       action ← get ws "action" JNull;
       tool_used ← get ws "tool_used" JNull;
       data_objects ← get ws "data_objects" (JArr []);
       screenshot_description ← get ws "screenshot_description" JNull;
       Some <$> WorkflowStep_new step_number action tool_used data_objects
                  screenshot_description
     else Ok None);
  timestamp ← get event_data "timestamp" JNull;
  event_type_data ← get event_data "event_type" JNull;
  event_type ←
    (if py_truthy event_type_data then Some <$> EventType_of event_type_data
     else Ok None);
  description ← get event_data "description" (JStr "");
  confidence ← get event_data "confidence" JNull;
  VideoEvent_new timestamp event_type tool description workflow_step
    confidence.

(** The loop over the entries; [events] is the list built so far.  An
    exception leaves the function, and the events built so far with it. *)
Fixpoint parse_loop (entries : list json) (events : list VideoEvent)
    : result (list VideoEvent) :=
  match entries with
  | [] => Ok events
  | event_data :: entries' =>
      event ← parse_event event_data;
      parse_loop entries' (events ++ [event])
  end.

Definition parse_video_events_response (response_data : json)
    : result (list VideoEvent) :=
  events_data ← get response_data "events" (JArr []);
  entries ← py_iter events_data;
  parse_loop entries [].
End models.

(** [VideoChunk] ([models.py]) *)
Record VideoChunk := {
  chunk_id : string;
  start_time : pynum;
  end_time : pynum;
  file_path : string;
  scene_score : option pynum
}.

(** [int(x)] for a float: the value truncated towards zero; an infinite
    value raises [OverflowError], and [nan] raises [ValueError]. *)
Definition int_of_float (x : pynum) : result Z :=
  match x with
  | Fin q => Ok (Z.quot (Qnum q) (Z.pos (Qden q)))
  | NaN => Raise (ValueError (JNum NaN))
  | PInf | NInf => Raise OtherError
  end.

(** What [self.client.generate_content] does: it raises, or returns a
    response whose [text] is a string or raises when it is read.  Reading
    [response.text] gives the same string, or raises the same exception,
    each time. *)
Inductive generate_result : Type :=
  | GenerateRaised
  | GenerateResponse (text : result string).

(** The client and the service behind it.  [prompts key] is
    [self.prompts[key]], [None] when the look-up raises.  The answer to
    [generate_content] may depend on the file and on the prompt. *)
Record Client := {
  remote : Remote;
  prompts : string → option string;
  generate_content : option File → string → generate_result
}.

(** What one analysis does: the events it returns, the state the upload
    ends in, and the file and prompt [generate_content] was called with, if
    it was called. *)
Record analysis := {
  events : list VideoEvent;
  upload_log : st;
  asked : option (option File * string)
}.

Section client.
Context {lib : ClientLib} {pydantic : Pydantic}.

(** The event of the inner handler (lines 270 to 277). *)
Definition fallback_event (chunk : VideoChunk) (e : exn) (text : string)
    : result VideoEvent :=
  timestamp ← int_of_float (float_mul (start_time chunk) (of_int 1000));
  Ok {| timestamp_ms := Some timestamp;
        event_type := Some SCREEN_CHANGE;
        tool := None;
        description :=
          "Analysis error: " +:+ str_exn e +:+ ". Raw response: "
          +:+ substring 0 500 text;
        workflow_step := None;
        confidence_score := Some (Fin (3 # 10));
        audio_transcript := None;
        screenshot_path := None |}.

(** The inner [try] and its handler, once the response text was read.  An
    exception that the handler does not catch, or that the handler raises,
    reaches the outer handler, which returns the empty list. *)
Definition events_of_text (chunk : VideoChunk) (text : string)
    : list VideoEvent :=
  match result_json ← json_loads text;
        parse_video_events_response result_json with
  | Ok events => events
  | Raise e =>
      if is_ValueError e then
        match fallback_event chunk e text with
        | Ok event => [event]
        | Raise _ => []
        end
      else []
  end.

(** [uploaded_file] after [_upload_file_with_retry] returned. *)
Definition uploaded_file (r : upload_result) : option File :=
  match r with
  | Returned f => Some f
  | _ => None
  end.

(** The upload runs with the default [max_retries].  When reading
    [response.text] raises, the inner handler, if it is entered, reads it
    again, so the outer handler returns the empty list. *)
Definition analyze_video_chunk (client : Client) (chunk : VideoChunk)
    : analysis :=
  let run := _upload_file_with_retry (remote client) default_max_retries in
  match run.1 with
  | Raised => {| events := []; upload_log := run.2; asked := None |}
  | uploaded =>
      match prompts client "video_analysis" with
      | None => {| events := []; upload_log := run.2; asked := None |}
      | Some base =>
          let analysis_prompt :=
            video_analysis_prompt base (start_time chunk) (end_time chunk) in
          let file := uploaded_file uploaded in
          {| events :=
               match generate_content client file analysis_prompt with
               | GenerateRaised => []
               | GenerateResponse (Raise _) => []
               | GenerateResponse (Ok text) => events_of_text chunk text
               end;
             upload_log := run.2;
             asked := Some (file, analysis_prompt) |}
      end
  end.
End client.

(** ** Transcription ([gemini_client.py])

    [parse_audio_transcripts_response] (lines 140 to 156) and
    [GeminiClient.transcribe_audio] (lines 284 to 346). *)

(** [AudioTranscript] ([models.py]) *)
Module AudioTranscript.
Record t := {
  timestamp : option Z;
  speaker : option string;
  text : string;
  confidence : option pynum
}.
End AudioTranscript.

Record transcription := {
  transcripts : list AudioTranscript.t;
  transcription_upload_log : st;
  transcription_asked : option (option File * string)
}.

Section transcription.
Context {lib : ClientLib} {pydantic : Pydantic}.

(** [AudioTranscript(timestamp=..., speaker=..., text=..., confidence=...)] *)
Definition AudioTranscript_new (v_timestamp v_speaker v_text v_confidence : json)
    : result AudioTranscript.t :=
  match optional validate_int v_timestamp, optional validate_str v_speaker,
        validate_str v_text, optional validate_float v_confidence with
  | Some v_timestamp, Some v_speaker, Some v_text, Some v_confidence =>
      Ok {| AudioTranscript.timestamp := v_timestamp;
            AudioTranscript.speaker := v_speaker;
            AudioTranscript.text := v_text;
            AudioTranscript.confidence := v_confidence |}
  | _, _, _, _ => Raise (ValidationError "AudioTranscript")
  end.

Definition parse_transcript (transcript_data : json)
    : result AudioTranscript.t :=
  timestamp ← get transcript_data "timestamp" (JNum (of_int 0));
  speaker ← get transcript_data "speaker" JNull;
  text ← get transcript_data "text" (JStr "");
  confidence ← get transcript_data "confidence" JNull;
  AudioTranscript_new timestamp speaker text confidence.

Fixpoint parse_transcript_loop (entries : list json)
    (transcripts : list AudioTranscript.t) : result (list AudioTranscript.t) :=
  match entries with
  | [] => Ok transcripts
  | transcript_data :: entries' =>
      transcript ← parse_transcript transcript_data;
      parse_transcript_loop entries' (transcripts ++ [transcript])
  end.

Definition parse_audio_transcripts_response (response_data : json)
    : result (list AudioTranscript.t) :=
  transcripts_data ← get response_data "transcripts" (JArr []);
  entries ← py_iter transcripts_data;
  parse_transcript_loop entries [].

(** The transcript of the inner handler (lines 335 to 342); it does not
    read the response again. *)
Definition fallback_transcript (e : exn) : AudioTranscript.t :=
  {| AudioTranscript.timestamp := Some 0;
     AudioTranscript.speaker := None;
     AudioTranscript.text := "Transcription error: " +:+ str_exn e;
     AudioTranscript.confidence := Some (Fin 0) |}.

Definition transcripts_of_response (text : result string)
    : list AudioTranscript.t :=
  match text ← text; result_json ← json_loads text;
        parse_audio_transcripts_response result_json with
  | Ok transcripts => transcripts
  | Raise e => if is_ValueError e then [fallback_transcript e] else []
  end.

Definition transcribe_audio (client : Client) : transcription :=
  let run := _upload_file_with_retry (remote client) default_max_retries in
  match run.1 with
  | Raised =>
      {| transcripts := []; transcription_upload_log := run.2;
         transcription_asked := None |}
  | uploaded =>
      match prompts client "audio_transcription" with
      | None =>
          {| transcripts := []; transcription_upload_log := run.2;
             transcription_asked := None |}
      | Some base =>
          let transcription_prompt := audio_transcription_prompt base in
          let file := uploaded_file uploaded in
          {| transcripts :=
               match generate_content client file transcription_prompt with
               | GenerateRaised => []
               | GenerateResponse text => transcripts_of_response text
               end;
             transcription_upload_log := run.2;
             transcription_asked := Some (file, transcription_prompt) |}
      end
  end.
End transcription.

(** [l.sort(key=...)] for keys that are [int] or [None].  The sort is
    stable and compares with [<] only.  A list of fewer than two elements
    is not compared at all; on a longer list every element is compared at
    least once, and a comparison with [None] raises [TypeError], for which
    [None] stands here. *)
Fixpoint insert_sorted {A} (x : Z * A) (l : list (Z * A)) : list (Z * A) :=
  match l with
  | [] => [x]
  | y :: l' =>
      if bool_decide (y.1 < x.1) then y :: insert_sorted x l'
      else x :: y :: l'
  end.

Fixpoint stable_sort {A} (l : list (Z * A)) : list (Z * A) :=
  match l with
  | [] => []
  | x :: l' => insert_sorted x (stable_sort l')
  end.

Definition py_sort {A} (key : A → option Z) (l : list A) : option (list A) :=
  if bool_decide (length l ≤ 1)%nat then Some l
  else
    keyed ← mapM (λ a, k ← key a; Some (k, a)) l;
    Some ((stable_sort keyed).*2).

(** Two elements are in order when their keys, if both have one, are. *)
Definition key_le {A} (key : A → option Z) (a b : A) : Prop :=
  ∀ x y, key a = Some x → key b = Some y → x ≤ y.

Section batch.
Context {lib : ClientLib} {pydantic : Pydantic}.

(** [for i, chunk in enumerate(chunks)]: [clients i] is the client as the
    analysis of chunk [i] finds it. *)
Fixpoint analyze_loop (clients : nat → Client) (i : nat)
    (chunks : list VideoChunk) (all_events : list VideoEvent)
    : list VideoEvent :=
  match chunks with
  | [] => all_events
  | chunk :: chunks' =>
      let chunk_events := events (analyze_video_chunk (clients i) chunk) in
      analyze_loop clients (S i) chunks' (all_events ++ chunk_events)
  end.

Definition batch_analyze_chunks (clients : nat → Client)
    (chunks : list VideoChunk) : option (list VideoEvent) :=
  py_sort timestamp_ms (analyze_loop clients 0 chunks []).
End batch.

(** *** Sample instances for the worked examples *)

(** A validation that accepts a string for [str], a whole number for [int],
    a number for [float] and a list of strings, and nothing else. *)
Definition sample_pydantic : Pydantic :=
  {| validate_str := λ v, match v with JStr s => Some s | _ => None end;
     validate_int := λ v,
       match v with
       | JNum (Fin q) =>
           if bool_decide (Qden q = 1%positive) then Some (Qnum q) else None
       | _ => None
       end;
     validate_float := λ v, match v with JNum x => Some x | _ => None end;
     validate_list_str := λ v,
       match v with
       | JArr items =>
           mapM (λ item, match item with JStr s => Some s | _ => None end)
             items
       | _ => None
       end |}.

(** The text [{"events":[{"description":"a"},{"description":"b"}]}] and the
    value [json.loads] returns for it. *)
Definition sample_text : string :=
  let q := String (ascii_of_nat 34) "" in
  "{" +:+ q +:+ "events" +:+ q +:+ ":[{" +:+ q +:+ "description" +:+ q +:+ ":"
  +:+ q +:+ "a" +:+ q +:+ "},{" +:+ q +:+ "description" +:+ q +:+ ":" +:+ q
  +:+ "b" +:+ q +:+ "}]}".

Definition sample_json : json :=
  JObj [("events"%string,
         JArr [JObj [("description"%string, JStr "a")];
               JObj [("description"%string, JStr "b")]])].

(** [json.loads] on the texts of the examples, any other text taken not to
    be JSON; the names of the exceptions for their messages; the configured
    prompt for the prompt. *)
Definition sample_lib : ClientLib :=
  {| json_loads := λ s,
       if bool_decide (s = sample_text) then Ok sample_json
       else if bool_decide (s = "{}") then Ok (JObj [])
       else if bool_decide (s = "[]") then Ok (JArr [])
       else if bool_decide (s = "null") then Ok JNull
       else Raise JSONDecodeError;
     str_exn := λ e,
       match e with
       | JSONDecodeError => "JSONDecodeError"
       | ValueError _ => "ValueError"
       | ValidationError _ => "ValidationError"
       | OtherError => "Exception"
       end;
     video_analysis_prompt := λ base _ _, base;
     audio_transcription_prompt := λ base, base |}.

(** The upload succeeds at the second attempt and the model answers every
    request with [text]. *)
Definition sample_client (text : string) : Client :=
  {| remote := slow_remote;
     prompts := λ key, Some key;
     generate_content := λ _ _, GenerateResponse (Ok text) |}.

(** The chunk that starts [seconds] into the video and lasts a second. *)
Definition chunk_at (seconds : Q) : VideoChunk :=
  {| chunk_id := "chunk";
     start_time := Fin seconds;
     end_time := Fin (seconds + 1);
     file_path := "clip.webm";
     scene_score := None |}.

(** A response with two entries; the second has no timestamp. *)
Definition two_entries : json :=
  JObj [("events"%string,
         JArr [JObj [("timestamp"%string, JNum (of_int 7000));
                     ("event_type"%string, JStr "USER_ACTION");
                     ("tool"%string, JObj [("name"%string, JStr "Gmail")]);
                     ("description"%string, JStr "Opens the inbox");
                     ("confidence"%string, JNum (Fin (9 # 10)))];
               JObj [("description"%string, JStr "Scrolls down")]])].
End VideoAnalysis.

(** ** The analysis stage of [process_video] ([process_video.py])

    The part of [process_video] that computes the events and the
    transcripts of the result (lines 96 to 118): the batch analysis, the
    transcription, the removal of transcript events, the extraction of
    screenshots with a default [ScreenshotExtractor], and the two sorts.
    [None] is an exception that leaves the function. *)

Module ProcessVideo.
Import VideoAnalysis.

Section stage.
Context {paths : PathLib} {parsing : StrParsing}.
Context {lib : ClientLib} {pydantic : Pydantic}.

Definition process_video_events (clients : nat → Client)
    (transcriber : Client) (w : World) (chunks : list VideoChunk)
    (session_dir : Path)
    : option (list VideoEvent * list AudioTranscript.t) :=
  events ← batch_analyze_chunks clients chunks;
  let transcripts := transcripts (transcribe_audio transcriber) in
  let action_events := filter (λ e, is_action e = true) events in
  action_events ←
    extract_event_screenshots default_config w action_events session_dir;
  action_events ← py_sort timestamp_ms action_events;
  transcripts ← py_sort AudioTranscript.timestamp transcripts;
  Some (action_events, transcripts).
End stage.
End ProcessVideo.

(** * Properties *)

Lemma foldl_dedup_step_sweep threshold acc prev rest :
  foldl (dedup_step threshold) (acc ++ [prev]) rest
  = acc ++ prev :: sweep threshold prev rest.
Proof.
  revert acc prev. induction rest as [|ts rest IH]; intros acc prev; simpl.
  - done.
  - unfold dedup_step at 2. rewrite last_snoc.
    case_bool_decide.
    + rewrite (IH (acc ++ [prev]) ts). by rewrite <- app_assoc.
    + apply IH.
Qed.

Lemma dedup_unfold config l :
  _deduplicate_timestamps config l =
  match sorted_set l with
  | [] => []
  | first :: rest => first :: sweep (dedup_threshold_ms config) first rest
  end.
Proof.
  unfold _deduplicate_timestamps.
  destruct l as [|x l]; [done|].
  destruct (sorted_set (x :: l)) as [|first rest]; [done|].
  apply (foldl_dedup_step_sweep _ [] first rest).
Qed.

(** ** Deduplication *)

Lemma sorted_set_elem_of l x : x ∈ sorted_set l ↔ x ∈ l.
Proof.
  unfold sorted_set. rewrite merge_sort_Permutation. apply elem_of_remove_dups.
Qed.

Lemma le_sorted_NoDup_lt (l : list Z) :
  StronglySorted Z.le l → NoDup l → StronglySorted Z.lt l.
Proof.
  induction 1 as [|x l Hs IH Hall]; intros Hnd; [constructor|].
  apply NoDup_cons in Hnd as [Hx Hnd].
  constructor; [by apply IH|].
  apply Forall_forall. intros y Hy.
  rewrite Forall_forall in Hall. specialize (Hall y Hy).
  assert (x ≠ y) by (intros ->; done). lia.
Qed.

Lemma sorted_set_sorted l : StronglySorted Z.lt (sorted_set l).
Proof.
  apply le_sorted_NoDup_lt.
  - apply (StronglySorted_merge_sort Z.le).
  - unfold sorted_set. rewrite merge_sort_Permutation. apply NoDup_remove_dups.
Qed.

Lemma sweep_Forall threshold prev rest :
  StronglySorted Z.lt (prev :: rest) →
  Forall (apart threshold prev) (sweep threshold prev rest).
Proof.
  revert prev. induction rest as [|ts rest IH]; intros prev Hs; simpl.
  - constructor.
  - apply StronglySorted_cons in Hs as [Hall Hs].
    apply Forall_cons in Hall as [Hlt Hall].
    case_bool_decide as Hgap.
    + constructor; [done|].
      eapply Forall_impl; [apply IH, Hs|].
      intros x [? ?]. unfold apart. lia.
    + apply IH. apply StronglySorted_cons. split; [done|].
      by apply StronglySorted_cons in Hs as [_ ?].
Qed.

Lemma sweep_sublist threshold prev rest :
  sweep threshold prev rest `sublist_of` rest.
Proof.
  revert prev. induction rest as [|ts rest IH]; intros prev; simpl; [done|].
  case_bool_decide; [by apply sublist_skip|by apply sublist_cons].
Qed.

Lemma sweep_apart threshold prev rest :
  StronglySorted Z.lt (prev :: rest) →
  StronglySorted (apart threshold) (prev :: sweep threshold prev rest).
Proof.
  revert prev. induction rest as [|ts rest IH]; intros prev Hs.
  - simpl. repeat constructor.
  - apply StronglySorted_cons. split; [by apply sweep_Forall|].
    simpl. apply StronglySorted_cons in Hs as [Hall Hs].
    case_bool_decide.
    + by apply IH.
    + assert (Hp : StronglySorted Z.lt (prev :: rest)).
      { apply StronglySorted_cons. apply Forall_cons in Hall as [_ ?].
        by apply StronglySorted_cons in Hs as [_ ?]. }
      by apply IH, StronglySorted_cons in Hp as [_ ?].
Qed.

Lemma dedup_apart config l :
  StronglySorted (apart (dedup_threshold_ms config))
    (_deduplicate_timestamps config l).
Proof.
  rewrite dedup_unfold. pose proof (sorted_set_sorted l) as Hs.
  destruct (sorted_set l) as [|first rest]; [constructor|].
  by apply sweep_apart.
Qed.

Lemma dedup_sublist config l :
  _deduplicate_timestamps config l `sublist_of` sorted_set l.
Proof.
  rewrite dedup_unfold. destruct (sorted_set l) as [|first rest]; [done|].
  apply sublist_skip, sweep_sublist.
Qed.

Lemma dedup_elem_of config l x :
  x ∈ _deduplicate_timestamps config l → x ∈ l.
Proof.
  intros Hx. apply sorted_set_elem_of.
  by eapply elem_of_sublist; [|apply dedup_sublist].
Qed.

Lemma apart_lt threshold a b : apart threshold a b → a < b.
Proof. by intros [? ?]. Qed.

Lemma dedup_sorted config l :
  StronglySorted Z.lt (_deduplicate_timestamps config l).
Proof.
  pose proof (dedup_apart config l) as Hs.
  induction Hs as [|x k Hs IH Hall]; constructor; [done|].
  eapply Forall_impl; [done|]. intros ?. apply apart_lt.
Qed.

Lemma dedup_NoDup config l : NoDup (_deduplicate_timestamps config l).
Proof.
  pose proof (dedup_sorted config l) as Hs.
  induction Hs as [|x k Hs IH Hall]; constructor; [|done].
  intros Hx. rewrite Forall_forall in Hall. specialize (Hall x Hx). lia.
Qed.

Lemma StronglySorted_pairs {A} (R : relation A) (l : list A) a b :
  StronglySorted R l → a ∈ l → b ∈ l → a = b ∨ R a b ∨ R b a.
Proof.
  induction 1 as [|x l Hs IH Hall]; intros Ha Hb; [by apply elem_of_nil in Ha|].
  rewrite Forall_forall in Hall.
  apply elem_of_cons in Ha as [->|Ha]; apply elem_of_cons in Hb as [->|Hb];
    auto.
Qed.

(** C2.  Any two distinct timestamps that [_deduplicate_timestamps] returns
    differ by at least [dedup_threshold_ms], whatever the input list and the
    threshold.  The result is the greedy sweep over the distinct candidates
    in ascending order: the first is kept, and each later one is kept when it
    is at least the threshold past the last kept one.  With the default
    threshold of 500 the candidates [1000, 1200, 1205, 5000] give exactly
    [1000, 5000]. *)
Theorem dedup_min_gap :
  (∀ (config : ScreenshotConfig) (timestamps_ms : list Z) (a b : Z),
     a ∈ _deduplicate_timestamps config timestamps_ms →
     b ∈ _deduplicate_timestamps config timestamps_ms →
     a ≠ b →
     dedup_threshold_ms config ≤ Z.abs (a - b))
  ∧ (∀ (config : ScreenshotConfig) (timestamps_ms : list Z),
       _deduplicate_timestamps config timestamps_ms
       = match sorted_set timestamps_ms with
         | [] => []
         | first :: rest =>
             first :: sweep (dedup_threshold_ms config) first rest
         end)
  ∧ dedup_threshold_ms default_config = 500
  ∧ _deduplicate_timestamps default_config [1000; 1200; 1205; 5000]
    = [1000; 5000].
Proof.
  split; [|split; [apply dedup_unfold|split; [done|by vm_compute]]].
  intros config l a b Ha Hb Hne.
  destruct (StronglySorted_pairs _ _ a b (dedup_apart config l) Ha Hb)
    as [?|[[? ?]|[? ?]]]; [done|lia|lia].
Qed.

Lemma dedup_min_gap_witness :
  1000 ∈ _deduplicate_timestamps default_config [5000; 1205; 1000; 1200; 1000]
  ∧ 5000 ∈ _deduplicate_timestamps default_config [5000; 1205; 1000; 1200; 1000]
  ∧ 500 ≤ Z.abs (1000 - 5000).
Proof.
  assert (H1 : 1000 ∈ _deduplicate_timestamps default_config
                        [5000; 1205; 1000; 1200; 1000])
    by (vm_compute; repeat constructor).
  assert (H2 : 5000 ∈ _deduplicate_timestamps default_config
                        [5000; 1205; 1000; 1200; 1000])
    by (vm_compute; repeat constructor).
  split; [exact H1|split; [exact H2|]].
  apply (proj1 dedup_min_gap default_config _ 1000 5000 H1 H2). lia.
Defined.

(** ** Dictionaries *)

Section pydict_facts.
Context {K V : Type} `{EqDecision K}.
Implicit Types (d : list (K * V)) (k : K) (v : V).

Lemma dict_get_None d k : dict_get k d = None ↔ k ∉ dict_keys d.
Proof.
  unfold dict_keys. induction d as [|[k' v'] d IH]; simpl.
  - split; [intros _; apply not_elem_of_nil|done].
  - rewrite not_elem_of_cons. destruct (decide (k = k')) as [->|Hne].
    + split; [done|by intros [? _]].
    + rewrite IH. split; [by intros; split|by intros [_ ?]].
Qed.

Lemma dict_set_new d k v : k ∉ dict_keys d → dict_set k v d = d ++ [(k, v)].
Proof.
  unfold dict_keys. induction d as [|[k' v'] d IH]; simpl; [done|].
  rewrite not_elem_of_cons. intros [Hne Hk].
  destruct (decide (k = k')); [done|]. by rewrite IH.
Qed.

Lemma dict_get_set d k k' v :
  dict_get k' (dict_set k v d) = if decide (k' = k) then Some v else dict_get k' d.
Proof.
  induction d as [|[k0 v0] d IH]; simpl.
  - destruct (decide (k' = k)); done.
  - destruct (decide (k = k0)) as [->|Hne]; simpl.
    + destruct (decide (k' = k0)); done.
    + destruct (decide (k' = k0)) as [->|?].
      * by rewrite decide_False by done.
      * done.
Qed.

Lemma dict_get_Some_elem_of d k v : dict_get k d = Some v → (k, v) ∈ d.
Proof.
  induction d as [|[k' v'] d IH]; simpl; [done|].
  destruct (decide (k = k')) as [->|?].
  - intros [= ->]. apply elem_of_cons. by left.
  - intros ?. apply elem_of_cons. right. by apply IH.
Qed.

End pydict_facts.

(** ** The timestamp index of the planner *)

Lemma setdefault_append_get d ts i ts' :
  dict_get ts' (setdefault_append d ts i)
  = if decide (ts' = ts) then Some (default [] (dict_get ts d) ++ [i])
    else dict_get ts' d.
Proof.
  unfold setdefault_append.
  destruct (dict_get ts d) as [indices|] eqn:Hget; by rewrite dict_get_set.
Qed.

Lemma collect_loop_get i events d ts :
  dict_get ts (collect_loop i events d)
  = match dict_get ts d, indices_from i events ts with
    | None, [] => None
    | o, l => Some (default [] o ++ l)
    end.
Proof.
  revert i d. induction events as [|e events IH]; intros i d; simpl.
  - destruct (dict_get ts d); simpl; [by rewrite app_nil_r|done].
  - rewrite IH. destruct (timestamp_ms e) as [t|] eqn:Ht.
    + rewrite setdefault_append_get.
      destruct (decide (Some t = Some ts)) as [[= ->]|Hne].
      * rewrite decide_True by done.
        destruct (dict_get ts d); simpl; by rewrite <- ?app_assoc.
      * rewrite decide_False by congruence. done.
    + rewrite decide_False by done. done.
Qed.

Lemma collect_get events ts :
  dict_get ts (collect_timestamps events)
  = match indices_from 0 events ts with [] => None | l => Some l end.
Proof. unfold collect_timestamps. by rewrite collect_loop_get. Qed.

Lemma indices_from_head i events ts :
  head (indices_from i events ts) = (λ k, (i + k)%nat) <$> first_index events ts.
Proof.
  unfold first_index. revert i.
  induction events as [|e events IH]; intros i; simpl; [done|].
  destruct (decide (timestamp_ms e = Some ts)); simpl.
  - f_equal. lia.
  - rewrite IH. destruct (list_find _ events) as [[k e']|]; simpl; [|done].
    f_equal. lia.
Qed.

Lemma indices_from_nil i events ts :
  indices_from i events ts = [] ↔ ∀ e, e ∈ events → timestamp_ms e ≠ Some ts.
Proof.
  revert i. induction events as [|e events IH]; intros i; simpl.
  - split; [|done]. intros _ e He. by apply elem_of_nil in He.
  - destruct (decide (timestamp_ms e = Some ts)) as [Heq|Hne].
    + split; [done|]. intros Hall. destruct (Hall e); [|done].
      apply elem_of_cons. by left.
    + rewrite IH. split.
      * intros Hall e' [->|?]%elem_of_cons; auto.
      * intros Hall e' ?. apply Hall, elem_of_cons. by right.
Qed.

(** A candidate is the timestamp of some event, its index entry is not empty
    and starts with the first event that carries it. *)
Lemma candidate_entry events ts :
  ts ∈ candidates events →
  ∃ i rest, dict_get ts (collect_timestamps events) = Some (i :: rest)
            ∧ first_index events ts = Some i.
Proof.
  unfold candidates. intros Hin.
  destruct (dict_get ts (collect_timestamps events)) as [l|] eqn:Hget.
  - rewrite collect_get in Hget.
    pose proof (indices_from_head 0 events ts) as Hhead.
    destruct (indices_from 0 events ts) as [|i rest]; [done|].
    injection Hget as <-. exists i, rest. split; [done|].
    simpl in Hhead. destruct (first_index events ts) as [k|]; [|done].
    simpl in Hhead. by injection Hhead as ->.
  - by apply dict_get_None in Hget.
Qed.


Lemma event_candidate events e ts :
  e ∈ events → timestamp_ms e = Some ts → ts ∈ candidates events.
Proof.
  intros He Hts. unfold candidates.
  destruct (decide (ts ∈ dict_keys (collect_timestamps events))) as [|Hnot];
    [done|].
  apply dict_get_None in Hnot. rewrite collect_get in Hnot.
  destruct (indices_from 0 events ts) eqn:Hidx; [|done].
  by destruct (proj1 (indices_from_nil 0 events ts) Hidx e He).
Qed.


(** ** The plan *)

Section planner_facts.
Context {paths : PathLib}.
Implicit Types (config : ScreenshotConfig) (events : list VideoEvent).

Lemma validate_negative ts D : ts < 0 → _validate_timestamp ts D = Some None.
Proof. intros ?. unfold _validate_timestamp. by rewrite bool_decide_true. Qed.

Lemma validate_nonneg ts D :
  0 ≤ ts →
  converts ts D = true →
  _validate_timestamp ts D
  = Some (Some (pn_div (clamped_ms ts D) (Fin 1000))).
Proof.
  intros ? Hconv. unfold _validate_timestamp.
  by rewrite bool_decide_false, Hconv by lia.
Qed.

(** A value is returned only for a timestamp that is not negative and
    converts, and it is the clamped timestamp in seconds. *)
Lemma validate_Some ts D sec :
  _validate_timestamp ts D = Some (Some sec) →
  0 ≤ ts ∧ converts ts D = true
  ∧ sec = pn_div (clamped_ms ts D) (Fin 1000).
Proof.
  unfold _validate_timestamp. case_bool_decide; [done|].
  destruct (converts ts D); [|done]. intros [= <-]. split; [lia|done].
Qed.

Lemma validate_raises ts D :
  _validate_timestamp ts D = None ↔ plannable D ts = false.
Proof.
  unfold _validate_timestamp, plannable.
  case_bool_decide; simpl; [done|]. by destruct (converts ts D).
Qed.


Lemma planned_task_key config t2e D dir ts ts' task :
  planned_task config t2e D dir ts = Some (ts', task) → ts' = ts.
Proof.
  unfold planned_task.
  destruct (_validate_timestamp ts D) as [[sec|]|]; simpl; [|done..].
  destruct (dict_get ts t2e) as [[|i l]|]; naive_solver.
Qed.

Lemma plan_fold_raised config t2e D dir unique :
  foldl (plan_step config t2e D dir) None unique = None.
Proof. by induction unique. Qed.

Lemma plan_fold config t2e D dir unique acc :
  NoDup unique →
  (∀ ts, ts ∈ unique → ts ∉ dict_keys acc) →
  (∀ ts, ts ∈ unique → ∃ i l, dict_get ts t2e = Some (i :: l)) →
  foldl (plan_step config t2e D dir) (Some acc) unique
  = if forallb (plannable D) unique
    then Some (acc ++ omap (planned_task config t2e D dir) unique)
    else None.
Proof.
  revert acc. induction unique as [|ts unique IH]; intros acc Hnd Hnew Hidx.
  - simpl. by rewrite app_nil_r.
  - apply NoDup_cons in Hnd as [Hts Hnd].
    destruct (Hidx ts) as (i & l & Hget); [by left|].
    cbn [foldl omap forallb]. unfold plan_step at 2, planned_task at 1.
    simpl. rewrite Hget.
    destruct (_validate_timestamp ts D) as [[sec|]|] eqn:Hval; simpl.
    + assert (Hp : plannable D ts = true).
      { destruct (plannable D ts) eqn:Hp; [done|].
        apply validate_raises in Hp. congruence. }
      rewrite Hp. simpl.
      rewrite dict_set_new by (apply Hnew; by left).
      rewrite IH; [by rewrite <- app_assoc|done| |].
      * intros ts' Hin. unfold dict_keys. rewrite fmap_app, elem_of_app.
        intros [Hacc|Hlast].
        -- by apply (Hnew ts'); [right|].
        -- simpl in Hlast. apply list_elem_of_singleton in Hlast as ->. done.
      * intros ts' Hin. apply Hidx. by right.
    + assert (Hp : plannable D ts = true).
      { destruct (plannable D ts) eqn:Hp; [done|].
        apply validate_raises in Hp. congruence. }
      rewrite Hp. simpl. apply IH; [done| |].
      * intros ts' Hin. apply Hnew. by right.
      * intros ts' Hin. apply Hidx. by right.
    + apply validate_raises in Hval. rewrite Hval. simpl.
      apply plan_fold_raised.
Qed.

(** The planner returns the tasks of the kept timestamps, unless
    [_validate_timestamp] raises for one of them. *)
Lemma prepare_spec config events D dir :
  _prepare_extraction_tasks config events D dir
  = if forallb (plannable D) (kept config events)
    then Some (omap (planned_task config (collect_timestamps events) D dir)
                    (kept config events))
    else None.
Proof.
  unfold _prepare_extraction_tasks.
  rewrite (plan_fold _ _ _ _ _ []).
  - done.
  - apply dedup_NoDup.
  - intros ts _. apply not_elem_of_nil.
  - intros ts Hin. apply dedup_elem_of in Hin.
    destruct (candidate_entry events ts Hin) as (i & l & Hget & _). eauto.
Qed.


Lemma prepare_Some config events D dir plan :
  _prepare_extraction_tasks config events D dir = Some plan →
  plan = omap (planned_task config (collect_timestamps events) D dir)
              (kept config events)
  ∧ ∀ ts, ts ∈ kept config events → plannable D ts = true.
Proof.
  rewrite prepare_spec. destruct (forallb _ _) eqn:Hf; [|done].
  intros [= <-]. split; [done|]. intros ts Hin.
  rewrite forallb_forall in Hf. by apply Hf, list_elem_of_In.
Qed.


Lemma planned_keys_sublist config t2e D dir l :
  dict_keys (omap (planned_task config t2e D dir) l) `sublist_of` l.
Proof.
  unfold dict_keys. induction l as [|ts l IH]; simpl; [done|].
  destruct (planned_task config t2e D dir ts) as [[ts' task]|] eqn:Hp; simpl.
  - apply planned_task_key in Hp as ->. by apply sublist_skip.
  - by apply sublist_cons.
Qed.

Lemma StronglySorted_sublist {A} (R : relation A) (l k : list A) :
  l `sublist_of` k → StronglySorted R k → StronglySorted R l.
Proof.
  induction 1 as [|x l k Hsub IH|x l k Hsub IH]; intros Hs; [done| |].
  - apply StronglySorted_cons in Hs as [Hall Hs].
    apply StronglySorted_cons. split; [|by apply IH].
    rewrite Forall_forall in Hall |- *.
    intros y Hy. apply Hall. by eapply elem_of_sublist.
  - apply StronglySorted_cons in Hs as [_ Hs]. by apply IH.
Qed.




(** Every task of the plan comes from a kept timestamp that passes
    validation, and is named after the first event at that timestamp. *)
Lemma plan_elem_of config events D dir ts sec path i :
  (ts, (sec, path, i))
    ∈ omap (planned_task config (collect_timestamps events) D dir)
           (kept config events) →
  ts ∈ kept config events
  ∧ _validate_timestamp ts D = Some (Some sec)
  ∧ first_index events ts = Some i
  ∧ path = path_div dir (screenshot_filename config i ts).
Proof.
  intros (ts' & Hkept & Hp)%list_elem_of_omap.
  pose proof (planned_task_key _ _ _ _ _ _ _ Hp) as ->.
  split; [done|].
  destruct (candidate_entry events ts' (dedup_elem_of _ _ _ Hkept))
    as (j & l & Hget & Hfirst).
  unfold planned_task in Hp. rewrite Hget in Hp.
  destruct (_validate_timestamp ts' D) as [[sec'|]|]; simpl in Hp; [|done..].
  injection Hp as Hsec Hpath Hidx. by subst.
Qed.
End planner_facts.

(** ** Clamping *)

Lemma pn_ltb_Fin x y : pn_ltb (Fin x) (Fin y) = true ↔ (x < y)%Q.
Proof.
  simpl. destruct (Qcompare_spec x y) as [Heq|Hlt|Hgt].
  - split; [done|]. intros ?. lra.
  - done.
  - split; [done|]. intros ?. lra.
Qed.




(** ** The planner: clamping, order, names *)





(** ** The executor *)

Section executor_facts.
Context {paths : PathLib}.
Implicit Types (tasks : list (Z * Task)) (outcome : Z → future_result).

Lemma collect_result_insert tasks outcome results ts :
  collect_result tasks outcome results ts
  = <[ts := outcome_entry tasks outcome ts]> results.
Proof.
  unfold collect_result, outcome_entry.
  destruct (outcome ts) as [[|]|]; simpl; [|done|done].
  by destruct (dict_get ts tasks) as [[[? ?] ?]|].
Qed.

Lemma batch_fold_lookup tasks outcome (l : list Z) (m : gmap Z (option string)) ts :
  foldl (collect_result tasks outcome) m l !! ts
  = if decide (ts ∈ l) then Some (outcome_entry tasks outcome ts) else m !! ts.
Proof.
  revert m. induction l as [|x l IH]; intros m; cbn [foldl].
  - by rewrite decide_False by apply not_elem_of_nil.
  - rewrite IH, collect_result_insert.
    destruct (decide (ts ∈ l)) as [Hin|Hnin].
    + rewrite decide_True by (by right). done.
    + destruct (decide (ts = x)) as [->|Hne].
      * rewrite decide_True by (by left). by rewrite lookup_insert_eq.
      * rewrite decide_False by (by intros [?|?]%elem_of_cons).
        by rewrite lookup_insert_ne.
Qed.

Lemma batch_lookup tasks completed outcome ts :
  _batch_extract_screenshots tasks completed outcome !! ts
  = if decide (ts ∈ completed) then Some (outcome_entry tasks outcome ts)
    else None.
Proof.
  unfold _batch_extract_screenshots. rewrite batch_fold_lookup.
  destruct (decide (ts ∈ completed)); [done|apply lookup_empty].
Qed.



End executor_facts.


(** ** The binder *)

Lemma bind_event_frame config results e :
  timestamp_ms (bind_event config results e) = timestamp_ms e
  ∧ event_type (bind_event config results e) = event_type e
  ∧ tool (bind_event config results e) = tool e
  ∧ description (bind_event config results e) = description e
  ∧ workflow_step (bind_event config results e) = workflow_step e
  ∧ confidence_score (bind_event config results e) = confidence_score e
  ∧ audio_transcript (bind_event config results e) = audio_transcript e.
Proof.
  unfold bind_event. destruct (timestamp_ms e) as [ts|] eqn:Hts; [|done].
  destruct (results !! ts) as [[artifact|]|]; [|done|done].
  by destruct (bool_decide (artifact = "")).
Qed.

Lemma bind_event_absent config results e ts :
  timestamp_ms e = Some ts → results !! ts = None →
  bind_event config results e = e.
Proof. intros Hts Hget. unfold bind_event. by rewrite Hts, Hget. Qed.

(** C7.  The binder keeps the list of events and every field of every event
    except the screenshot reference.  It sets the reference to the artifact
    name under the screenshot subdirectory when the event's timestamp is a
    key of the outcome map whose entry is a name (a name that is not empty:
    the code tests the entry's truth value); an event without a timestamp,
    with a timestamp that is no key, or with a failed entry keeps the
    reference it had, so an absent reference stays absent. *)
Theorem binder_sets_successful_only (config : ScreenshotConfig)
    (events : list VideoEvent) (screenshot_results : gmap Z (option string)) :
  let events' :=
    _update_events_with_screenshots config events screenshot_results in
  length events' = length events
  ∧ ∀ k e,
      events !! k = Some e →
      ∃ e',
        events' !! k = Some e'
        ∧ (timestamp_ms e' = timestamp_ms e
           ∧ event_type e' = event_type e
           ∧ tool e' = tool e
           ∧ description e' = description e
           ∧ workflow_step e' = workflow_step e
           ∧ confidence_score e' = confidence_score e
           ∧ audio_transcript e' = audio_transcript e)
        ∧ (∀ ts artifact,
             timestamp_ms e = Some ts →
             screenshot_results !! ts = Some (Some artifact) →
             artifact ≠ ""%string →
             screenshot_path e'
             = Some (screenshot_subdir config +:+ "/" +:+ artifact))
        ∧ (timestamp_ms e = None → e' = e)
        ∧ (∀ ts,
             timestamp_ms e = Some ts →
             screenshot_results !! ts = None
             ∨ screenshot_results !! ts = Some None
             ∨ screenshot_results !! ts = Some (Some ""%string) →
             e' = e)
        ∧ (screenshot_path e = None →
           (is_Some (screenshot_path e')
            ↔ ∃ ts artifact,
                timestamp_ms e = Some ts
                ∧ screenshot_results !! ts = Some (Some artifact)
                ∧ artifact ≠ ""%string)).
Proof.
  intros events'. split; [apply length_fmap|].
  intros k e Hk. exists (bind_event config screenshot_results e).
  split; [unfold events', _update_events_with_screenshots;
          by rewrite list_lookup_fmap, Hk|].
  split; [apply bind_event_frame|].
  unfold bind_event. split; [|split; [|split]].
  - intros ts artifact -> -> Hne. by rewrite bool_decide_false.
  - by intros ->.
  - intros ts -> [-> | [-> | ->]]; done.
  - intros Hnone. destruct (timestamp_ms e) as [ts|]; [|].
    + destruct (screenshot_results !! ts) as [[artifact|]|] eqn:Hget.
      * case_bool_decide as Hempty; simpl.
        -- rewrite Hnone. split; [by intros [? ?]|].
           intros (ts' & a & [= <-] & Hget' & Hne). congruence.
        -- split; [|by eexists]. intros _. by exists ts, artifact.
      * rewrite Hnone. split; [by intros [? ?]|].
        intros (ts' & a & [= <-] & Hget' & _). congruence.
      * rewrite Hnone. split; [by intros [? ?]|].
        intros (ts' & a & [= <-] & Hget' & _). congruence.
    + rewrite Hnone. split; [by intros [? ?]|]. by intros (? & ? & ? & _).
Qed.

(** ** The whole extraction run *)

Section pipeline_facts.
Context {paths : PathLib} {parsing : StrParsing}.
Implicit Types (config : ScreenshotConfig) (w : World).

(** Binding the action events where they stand in [events] is what
    [_update_events_with_screenshots] does to the list of action events. *)
Lemma bind_action_events config results events :
  filter (λ e, is_action e = true)
    ((λ e, if is_action e then bind_event config results e else e) <$> events)
  = _update_events_with_screenshots config
      (filter (λ e, is_action e = true) events) results.
Proof.
  unfold _update_events_with_screenshots.
  induction events as [|e events IH]; [done|].
  rewrite fmap_cons, !filter_cons, IH.
  destruct (is_action e) eqn:He.
  - assert (Hb : is_action (bind_event config results e) = true).
    { unfold is_action in *.
      by destruct (bind_event_frame config results e) as (_ & -> & _). }
    rewrite decide_True by done. rewrite decide_True by done. done.
  - rewrite decide_False by (rewrite He; done).
    rewrite decide_False by done. done.
Qed.

(** The run either returns the events as they are, or binds them against
    the outcomes of the plan for the action events. *)
Lemma extract_cases config w events session_dir events' :
  extract_event_screenshots config w events session_dir = Some events' →
  events' = events
  ∨ ∃ plan,
      _prepare_extraction_tasks config (filter (λ e, is_action e = true) events)
        (clamping_duration (_get_video_duration_ms (ffprobe w)))
        (path_div session_dir (screenshot_subdir config)) = Some plan
      ∧ events'
        = (λ e, if is_action e
                then bind_event config
                       (_batch_extract_screenshots plan (completed w plan)
                          (task_outcome w plan)) e
                else e) <$> events.
Proof.
  unfold extract_event_screenshots.
  case_bool_decide; [intros [= <-]; by left|].
  case_bool_decide; [intros [= <-]; by left|].
  destruct (resolve_ok w); simpl; [|done].
  destruct (video_exists w); simpl; [|intros [= <-]; by left].
  destruct (mkdir_ok w); simpl; [|done].
  destruct (_prepare_extraction_tasks _ _ _ _) as [plan|]; simpl; [|done].
  case_bool_decide; [intros [= <-]; by left|].
  case_bool_decide; [done|].
  intros [= <-]. right. by exists plan.
Qed.




(** C10.  An event whose timestamp did not survive deduplication comes out
    of the run unchanged, whatever ffmpeg did for the timestamps that were
    kept: its timestamp is not a key of the outcome map, so its screenshot
    reference is not set. *)
Theorem deduplicated_event_gets_no_screenshot (config : ScreenshotConfig)
    (w : World) (events events' : list VideoEvent) (session_dir : Path)
    (k : nat) (e : VideoEvent) (ts : Z) :
  as_completed_ok w →
  extract_event_screenshots config w events session_dir = Some events' →
  events !! k = Some e →
  timestamp_ms e = Some ts →
  ts ∉ kept config (filter (λ e, is_action e = true) events) →
  events' !! k = Some e
  ∧ ∀ plan,
      _prepare_extraction_tasks config (filter (λ e, is_action e = true) events)
        (clamping_duration (_get_video_duration_ms (ffprobe w)))
        (path_div session_dir (screenshot_subdir config)) = Some plan →
      _batch_extract_screenshots plan (completed w plan) (task_outcome w plan)
        !! ts = None.
Proof.
  intros Hok Hrun Hk Hts Hnot.
  assert (Hkey : ∀ plan,
    _prepare_extraction_tasks config (filter (λ e, is_action e = true) events)
      (clamping_duration (_get_video_duration_ms (ffprobe w)))
      (path_div session_dir (screenshot_subdir config)) = Some plan →
    _batch_extract_screenshots plan (completed w plan) (task_outcome w plan)
      !! ts = None).
  { intros plan Hplan. rewrite batch_lookup.
    rewrite decide_False; [done|]. rewrite (Hok plan).
    apply prepare_Some in Hplan as [-> _].
    intros Hin. apply Hnot.
    eapply elem_of_sublist; [done|apply planned_keys_sublist]. }
  split; [|done].
  apply extract_cases in Hrun as [->|(plan & Hplan & ->)]; [done|].
  rewrite list_lookup_fmap, Hk. simpl. f_equal.
  destruct (is_action e); [|done].
  by apply (bind_event_absent _ _ _ ts), Hkey.
Qed.
End pipeline_facts.



Lemma deduplicated_event_gets_no_screenshot_witness :
  extract_event_screenshots (parsing := decimal_parsing) default_config
    sample_world [event_at 1000; event_at 1200] "session"%string
  = Some [set_screenshot_path (event_at 1000)
            (Some "screenshots/event_001_1000ms.jpg"%string);
          event_at 1200]
  ∧ [set_screenshot_path (event_at 1000)
       (Some "screenshots/event_001_1000ms.jpg"%string);
     event_at 1200] !! 1%nat = Some (event_at 1200).
Proof.
  assert (Hrun : extract_event_screenshots (parsing := decimal_parsing)
                   default_config sample_world
                   [event_at 1000; event_at 1200] "session"%string
                 = Some [set_screenshot_path (event_at 1000)
                           (Some "screenshots/event_001_1000ms.jpg"%string);
                         event_at 1200])
    by (vm_compute; reflexivity).
  split; [exact Hrun|].
  refine (proj1 (deduplicated_event_gets_no_screenshot
                   (parsing := decimal_parsing) default_config
                   sample_world [event_at 1000; event_at 1200] _ "session"%string
                   1 (event_at 1200) 1200 _ Hrun eq_refl eq_refl _)).
  - intros extraction_tasks. reflexivity.
  - vm_compute. intros Hin. inversion Hin as [|? ? ? Hin']. inversion Hin'.
Defined.

(** ** The duration probe *)

Section probe_facts.
Context {parsing : StrParsing}.





End probe_facts.


(** ** Upload with retry *)

Module GeminiClientFacts.
Import GeminiClient.

Lemma count_app p t1 t2 : count p (t1 ++ t2) = (count p t1 + count p t2)%nat.
Proof. induction t1 as [|e t1 IH]; simpl; [done|]. rewrite IH. lia. Qed.

Lemma count_record p call es s :
  count p (trace (record call es s)) = (count p (trace s) + count p es)%nat.
Proof. unfold record. simpl. apply count_app. Qed.

Lemma poll_loop_spec remote budget f s o s' :
  poll_loop remote budget f s = (o, s') →
  count is_upload (trace s') = count is_upload (trace s)
  ∧ match o with
    | PollActive f' => state f' = ACTIVE
    | PollExhausted _ => True
    | PollRaised => True
    end.
Proof.
  revert f s. induction budget as [|budget IH]; intros f s; simpl.
  - by intros [= <- <-].
  - case_bool_decide as Hact.
    + by intros [= <- <-].
    + destruct (get_file remote _ _) as [|f'].
      * intros [= <- <-]. rewrite !count_record. simpl. split; [lia|done].
      * intros Hrec. apply IH in Hrec as [Hcount Ho].
        rewrite !count_record in Hcount. simpl in Hcount.
        split; [lia|]. destruct o; auto.
Qed.

Lemma on_exception_spec max_retries attempt s o s' :
  on_exception max_retries attempt s = (o, s') →
  count is_upload (trace s') = count is_upload (trace s)
  ∧ match o with
    | AttemptReturn _ => False
    | AttemptContinue => (attempt < max_retries - 1)%nat
    | AttemptRaise => ¬ (attempt < max_retries - 1)%nat
    end.
Proof.
  unfold on_exception. case_bool_decide; intros [= <- <-].
  - rewrite count_record. simpl. split; [lia|done].
  - done.
Qed.

(** One attempt uploads once; it returns only an active file, asks for
    another attempt only when one is left, and raises only when none is. *)
Lemma one_attempt_spec remote max_retries attempt s o s' :
  one_attempt remote max_retries attempt s = (o, s') →
  count is_upload (trace s') = S (count is_upload (trace s))
  ∧ match o with
    | AttemptReturn f => state f = ACTIVE
    | AttemptContinue => (attempt < max_retries - 1)%nat
    | AttemptRaise => ¬ (attempt < max_retries - 1)%nat
    end.
Proof.
  unfold one_attempt.
  assert (Hup : count is_upload (trace (record true [EUpload] s))
                = S (count is_upload (trace s)))
    by (rewrite count_record; simpl; lia).
  destruct (upload_file remote (calls s)) as [|f].
  - intros [Hc Ho]%on_exception_spec. split; [lia|]. by destruct o.
  - destruct (poll_loop remote 10 f (record true [EUpload] s)) as [po s2] eqn:Hp.
    apply poll_loop_spec in Hp as [Hc2 Hpo].
    destruct po as [f'|f'|].
    + intros [= <- <-]. split; [lia|done].
    + case_bool_decide as Hact; simpl.
      * intros [= <- <-]. split; [lia|done].
      * case_bool_decide as Hleft.
        -- intros [= <- <-]. rewrite !count_record. simpl. split; [lia|done].
        -- intros [Hc Ho]%on_exception_spec. rewrite count_record in Hc.
           simpl in Hc. split; [lia|]. by destruct o.
    + intros [Hc Ho]%on_exception_spec. split; [lia|]. by destruct o.
Qed.

Lemma attempt_loop_spec remote max_retries remaining attempt s result s' :
  (attempt + remaining = max_retries)%nat →
  attempt_loop remote max_retries remaining attempt s = (result, s') →
  (∀ f, result = Returned f → state f = ACTIVE)
  ∧ (result = ReturnedNone → remaining = 0%nat)
  ∧ (result = Raised →
     count is_upload (trace s') = (count is_upload (trace s) + remaining)%nat)
  ∧ (count is_upload (trace s') ≤ count is_upload (trace s) + remaining)%nat.
Proof.
  revert attempt s. induction remaining as [|remaining IH];
    intros attempt s Hsum; simpl.
  - intros [= <- <-]. repeat split; try done. lia.
  - destruct (one_attempt remote max_retries attempt s) as [o s1] eqn:H1.
    apply one_attempt_spec in H1 as [Hc Ho]. destruct o as [f| |].
    + intros [= <- <-]. repeat split; try done; [congruence|lia].
    + intros Hrec. apply IH in Hrec as (Hret & Hnone & Hraise & Hle); [|lia].
      repeat split; [done| |intros ?; rewrite Hraise by done; lia|lia].
      intros ?. specialize (Hnone ltac:(done)). lia.
    + intros [= <- <-]. repeat split; try done; lia.
Qed.

Lemma poll_loop_never remote budget f s :
  never_active remote → state f ≠ ACTIVE →
  ∃ f' s',
    poll_loop remote budget f s = (PollExhausted f', s')
    ∧ state f' ≠ ACTIVE
    ∧ count is_poll (trace s') = (count is_poll (trace s) + budget)%nat
    ∧ count is_poll_sleep (trace s')
      = (count is_poll_sleep (trace s) + budget)%nat.
Proof.
  intros [_ Hget]. revert f s. induction budget as [|budget IH];
    intros f s Hf; simpl.
  - exists f, s. repeat split; try done; lia.
  - rewrite bool_decide_false by done.
    destruct (Hget (calls s) (name f)) as (f1 & -> & Hf1).
    destruct (IH f1 (record true [EGetFile (name f)] (record false [ESleep 1] s))
                Hf1) as (f' & s' & -> & Hf' & Hp & Hs).
    exists f', s'. rewrite !count_record in Hp, Hs. simpl in Hp, Hs.
    repeat split; try done; lia.
Qed.

Lemma one_attempt_never remote max_retries attempt s :
  never_active remote →
  ∃ s',
    one_attempt remote max_retries attempt s
    = (if bool_decide (attempt < max_retries - 1)%nat then AttemptContinue
       else AttemptRaise, s')
    ∧ count is_poll (trace s') = (count is_poll (trace s) + 10)%nat
    ∧ count is_poll_sleep (trace s')
      = (count is_poll_sleep (trace s) + 10)%nat.
Proof.
  intros Hnever. unfold one_attempt.
  destruct (proj1 Hnever (calls s)) as (f & -> & Hf).
  destruct (poll_loop_never remote 10 f (record true [EUpload] s) Hnever Hf)
    as (f' & s2 & -> & Hf' & Hp & Hs).
  rewrite count_record in Hp, Hs. simpl in Hp, Hs.
  rewrite (bool_decide_false (state f' = ACTIVE)) by done. simpl.
  unfold on_exception. case_bool_decide; eexists; (split; [done|]);
    rewrite ?count_record; simpl; lia.
Qed.

Lemma attempt_loop_never remote max_retries remaining attempt s :
  never_active remote →
  (attempt + remaining = max_retries)%nat → (0 < remaining)%nat →
  ∃ s',
    attempt_loop remote max_retries remaining attempt s = (Raised, s')
    ∧ count is_poll (trace s')
      = (count is_poll (trace s) + 10 * remaining)%nat
    ∧ count is_poll_sleep (trace s')
      = (count is_poll_sleep (trace s) + 10 * remaining)%nat.
Proof.
  intros Hnever. revert attempt s.
  induction remaining as [|remaining IH]; intros attempt s Hsum Hpos; [lia|].
  cbn [attempt_loop].
  destruct (one_attempt_never remote max_retries attempt s Hnever)
    as (s1 & -> & Hp & Hs).
  case_bool_decide as Hleft.
  - destruct (IH (S attempt) s1) as (s' & -> & Hp' & Hs'); [lia|lia|].
    exists s'. split; [done|]. lia.
  - assert (remaining = 0%nat) as -> by lia.
    exists s1. split; [done|]. lia.
Qed.

(** C5.  With at least one attempt allowed, [_upload_file_with_retry]
    returns a file only in state [ACTIVE] and never falls off its loop.  It
    raises only after uploading [max_retries] times, once per attempt, and
    never uploads more often.  Against a service that never reports the file
    active, every attempt polls ten times, each poll after a sleep of one
    second, and the function raises after [max_retries] attempts.  The
    default is 3 attempts. *)
Theorem upload_active_or_exhausted (remote : Remote) (max_retries : nat) :
  (0 < max_retries)%nat →
  let run := _upload_file_with_retry remote max_retries in
  (∀ f, run.1 = Returned f → state f = ACTIVE)
  ∧ run.1 ≠ ReturnedNone
  ∧ (run.1 = Raised → count is_upload (trace run.2) = max_retries)
  ∧ (count is_upload (trace run.2) ≤ max_retries)%nat
  ∧ (never_active remote →
     run.1 = Raised
     ∧ count is_upload (trace run.2) = max_retries
     ∧ count is_poll (trace run.2) = (10 * max_retries)%nat
     ∧ count is_poll_sleep (trace run.2) = (10 * max_retries)%nat)
  ∧ default_max_retries = 3%nat.
Proof.
  intros Hpos run.
  destruct run as [result s'] eqn:Hrun. unfold run in Hrun.
  unfold _upload_file_with_retry in Hrun.
  pose proof (attempt_loop_spec remote max_retries max_retries 0 _ result s'
                eq_refl Hrun) as (Hret & Hnone & Hraise & Hle).
  simpl in *. split; [done|].
  split; [intros ->; specialize (Hnone eq_refl); lia|].
  split; [done|]. split; [done|]. split; [|done].
  intros Hnever.
  destruct (attempt_loop_never remote max_retries max_retries 0
              {| calls := 0; trace := [] |} Hnever eq_refl Hpos)
    as (s'' & Heq & Hp & Hs).
  simpl in Hp, Hs. rewrite Hrun in Heq. injection Heq as -> <-.
  split; [done|]. split; [by apply Hraise|]. split; lia.
Qed.

Lemma upload_active_or_exhausted_witness :
  (_upload_file_with_retry stuck_remote default_max_retries).1 = Raised
  ∧ count is_upload
      (trace (_upload_file_with_retry stuck_remote default_max_retries).2)
    = 3%nat
  ∧ count is_poll
      (trace (_upload_file_with_retry stuck_remote default_max_retries).2)
    = 30%nat
  ∧ (_upload_file_with_retry slow_remote default_max_retries).1
    = Returned {| name := "files/abc"; state := ACTIVE |}.
Proof.
  pose proof (upload_active_or_exhausted stuck_remote default_max_retries
                ltac:(unfold default_max_retries; lia))
    as (_ & _ & _ & _ & Hnever & _).
  assert (Hstuck : never_active stuck_remote).
  { split; [intros n|intros n file_name]; eexists; (split; [reflexivity|done]). }
  destruct (Hnever Hstuck) as (Hres & Hup & Hpoll & _).
  split; [exact Hres|]. split; [exact Hup|]. split; [exact Hpoll|].
  vm_compute. reflexivity.
Defined.

End GeminiClientFacts.

(** ** Admission control *)

Lemma in_flight_insert (l : list phase) i p q :
  l !! i = Some p →
  (length (filter (λ x, x = InFlight) (<[i := q]> l))
   + (if decide (p = InFlight) then 1 else 0)
   = length (filter (λ x, x = InFlight) l)
     + (if decide (q = InFlight) then 1 else 0))%nat.
Proof.
  revert i. induction l as [|x l IH]; intros [|i] Hi; simpl in Hi; try done.
  - injection Hi as ->. clear IH.
    change (<[0%nat := q]> (p :: l)) with (q :: l).
    rewrite !filter_cons.
    generalize (length (filter (λ x, x = InFlight) l)). intros m.
    destruct p, q; simpl; lia.
  - specialize (IH i Hi).
    change (<[S i := q]> (x :: l)) with (x :: <[i := q]> l).
    rewrite !filter_cons. repeat case_decide; cbn [length]; lia.
Qed.

Lemma in_flight_init config n : in_flight (pool_init config n) = 0%nat.
Proof.
  unfold in_flight, pool_init. simpl. induction n as [|n IH]; [done|].
  simpl. by rewrite filter_cons, decide_False.
Qed.

(** Every step keeps the counter and the tasks in flight in balance. *)
Lemma pool_step_balance s s' :
  pool_step s s' →
  permits s' + Z.of_nat (in_flight s') = permits s + Z.of_nat (in_flight s)
  ∧ (0 ≤ permits s → 0 ≤ permits s').
Proof.
  intros [s0 i Hi Hpos|s0 i Hi]; unfold in_flight; simpl.
  - pose proof (in_flight_insert _ _ _ InFlight Hi) as Hc.
    rewrite decide_False, decide_True in Hc by done. split; lia.
  - pose proof (in_flight_insert _ _ _ Finished Hi) as Hc.
    rewrite decide_True, decide_False in Hc by done. split; lia.
Qed.

(** C9.  In every state the executor can reach after submitting any number
    of tasks, the tasks inside the semaphore's block, where ffmpeg runs, are
    at most [max_concurrent_extractions]: together with the semaphore's
    counter, which never goes below zero, they always add up to it. *)
Theorem in_flight_bounded (config : ScreenshotConfig) (n : nat) (s : pool) :
  0 ≤ max_concurrent_extractions config →
  rtc pool_step (pool_init config n) s →
  Z.of_nat (in_flight s) ≤ max_concurrent_extractions config
  ∧ permits s + Z.of_nat (in_flight s) = max_concurrent_extractions config
  ∧ 0 ≤ permits s.
Proof.
  intros Hlimit Hreach.
  assert (Hinv : permits s + Z.of_nat (in_flight s)
                 = max_concurrent_extractions config ∧ 0 ≤ permits s).
  { revert s Hreach.
    apply (rtc_ind_r (λ s, permits s + Z.of_nat (in_flight s)
                           = max_concurrent_extractions config
                           ∧ 0 ≤ permits s)).
    - rewrite in_flight_init. simpl. lia.
    - intros s1 s2 _ Hstep [Hsum Hpos].
      apply pool_step_balance in Hstep as [Hbal Hkeep]. split; [lia|auto]. }
  destruct Hinv. repeat split; lia.
Qed.

Lemma in_flight_bounded_witness :
  Z.of_nat (in_flight {| permits := 2; phases := [InFlight; Finished; InFlight] |})
    ≤ max_concurrent_extractions default_config
  ∧ permits {| permits := 2; phases := [InFlight; Finished; InFlight] |}
    + Z.of_nat
        (in_flight {| permits := 2; phases := [InFlight; Finished; InFlight] |})
    = max_concurrent_extractions default_config
  ∧ 0 ≤ permits {| permits := 2; phases := [InFlight; Finished; InFlight] |}.
Proof.
  apply (in_flight_bounded default_config 3).
  - simpl. lia.
  - eapply rtc_l;
      [exact (step_acquire (pool_init default_config 3) 0 eq_refl eq_refl)|].
    eapply rtc_l;
      [exact (step_acquire
                {| permits := 3; phases := [InFlight; Queued; Queued] |} 1
                eq_refl eq_refl)|].
    eapply rtc_l;
      [exact (step_release
                {| permits := 2; phases := [InFlight; InFlight; Queued] |} 1
                eq_refl)|].
    eapply rtc_l;
      [exact (step_acquire
                {| permits := 3; phases := [InFlight; Finished; Queued] |} 2
                eq_refl eq_refl)|].
    apply rtc_refl.
Defined.

(** ** Further properties *)

Lemma sweep_keeps_apart threshold prev rest :
  StronglySorted (apart threshold) (prev :: rest) →
  sweep threshold prev rest = rest.
Proof.
  revert prev. induction rest as [|ts rest IH]; intros prev Hs; simpl; [done|].
  apply StronglySorted_cons in Hs as [Hall Hs].
  apply Forall_cons in Hall as [[_ Hgap] _].
  rewrite bool_decide_true by done. f_equal. by apply IH.
Qed.

Lemma lt_sorted_le_sorted (l : list Z) :
  StronglySorted Z.lt l → StronglySorted Z.le l.
Proof.
  induction 1 as [|x l Hs IH Hall]; constructor; [done|].
  eapply Forall_impl; [done|]. intros y ?. lia.
Qed.

Lemma sorted_set_fixed (l : list Z) : StronglySorted Z.lt l → sorted_set l = l.
Proof.
  intros Hs. apply (StronglySorted_unique Z.le).
  - apply lt_sorted_le_sorted, sorted_set_sorted.
  - by apply lt_sorted_le_sorted.
  - unfold sorted_set. rewrite merge_sort_Permutation.
    apply NoDup_Permutation.
    + apply NoDup_remove_dups.
    + clear -Hs. induction Hs as [|x l Hs IH Hall]; constructor; [|done].
      intros Hx. rewrite Forall_forall in Hall. specialize (Hall x Hx). lia.
    + intros x. apply elem_of_remove_dups.
Qed.

(** X1.  Deduplicating twice changes nothing, the result only holds timestamps of
    the input, and it is in strictly ascending order. *)
Theorem dedup_idempotent (config : ScreenshotConfig) (timestamps_ms : list Z) :
  _deduplicate_timestamps config (_deduplicate_timestamps config timestamps_ms)
  = _deduplicate_timestamps config timestamps_ms
  ∧ _deduplicate_timestamps config timestamps_ms ⊆ timestamps_ms
  ∧ StronglySorted Z.lt (_deduplicate_timestamps config timestamps_ms).
Proof.
  split; [|split; [intros x; apply dedup_elem_of|apply dedup_sorted]].
  pose proof (dedup_apart config timestamps_ms) as Hapart.
  pose proof (dedup_sorted config timestamps_ms) as Hsorted.
  rewrite (dedup_unfold config (_deduplicate_timestamps _ _)).
  rewrite sorted_set_fixed by done.
  destruct (_deduplicate_timestamps config timestamps_ms) as [|first rest];
    [done|].
  by rewrite sweep_keeps_apart.
Qed.

Section shared_timestamp.
Context {paths : PathLib} {parsing : StrParsing}.

(** X2.  Action events that carry the same timestamp and had the same screenshot
    reference before the run have the same reference after it: the task
    planned for the timestamp serves all of them. *)
Theorem shared_timestamp_same_reference (config : ScreenshotConfig)
    (w : World) (events events' : list VideoEvent) (session_dir : Path)
    (k1 k2 : nat) (e1 e2 e1' e2' : VideoEvent) :
  extract_event_screenshots config w events session_dir = Some events' →
  events !! k1 = Some e1 → events !! k2 = Some e2 →
  is_action e1 = true → is_action e2 = true →
  timestamp_ms e1 = timestamp_ms e2 →
  screenshot_path e1 = screenshot_path e2 →
  events' !! k1 = Some e1' → events' !! k2 = Some e2' →
  screenshot_path e1' = screenshot_path e2'.
Proof.
  intros Hrun H1 H2 Ha1 Ha2 Hts Hpath H1' H2'.
  apply extract_cases in Hrun as [->|(plan & _ & ->)]; [congruence|].
  rewrite list_lookup_fmap, H1 in H1'. rewrite list_lookup_fmap, H2 in H2'.
  simpl in H1', H2'. rewrite Ha1 in H1'. rewrite Ha2 in H2'.
  injection H1' as <-. injection H2' as <-.
  unfold bind_event. rewrite Hts. destruct (timestamp_ms e2) as [ts|]; [|done].
  destruct (_ !! ts) as [[artifact|]|]; [|done|done].
  by destruct (bool_decide (artifact = "")).
Qed.
End shared_timestamp.

Lemma shared_timestamp_same_reference_witness :
  extract_event_screenshots (parsing := decimal_parsing) default_config
    sample_world [event_at 2000; event_at 2000; event_at 2000] "session"%string
  = Some (replicate 3
            (set_screenshot_path (event_at 2000)
               (Some "screenshots/event_001_2000ms.jpg"%string)))
  ∧ screenshot_path
      (set_screenshot_path (event_at 2000)
         (Some "screenshots/event_001_2000ms.jpg"%string))
    = screenshot_path
        (set_screenshot_path (event_at 2000)
           (Some "screenshots/event_001_2000ms.jpg"%string)).
Proof.
  assert (Hrun : extract_event_screenshots (parsing := decimal_parsing)
                   default_config sample_world
                   [event_at 2000; event_at 2000; event_at 2000]
                   "session"%string
                 = Some (replicate 3
                           (set_screenshot_path (event_at 2000)
                              (Some "screenshots/event_001_2000ms.jpg"%string))))
    by (vm_compute; reflexivity).
  split; [exact Hrun|].
  exact (shared_timestamp_same_reference (parsing := decimal_parsing)
           default_config sample_world _ _ "session"%string 0 2
           (event_at 2000) (event_at 2000) _ _ Hrun
           eq_refl eq_refl eq_refl eq_refl eq_refl eq_refl eq_refl eq_refl).
Defined.

(** ** Worked examples *)

Example pn_ltb_examples :
  pn_ltb (Fin 1) PInf = true ∧ pn_ltb PInf (Fin 1) = false
  ∧ pn_ltb NInf (Fin 1) = true ∧ pn_ltb (Fin 1) NInf = false
  ∧ pn_ltb PInf PInf = false ∧ pn_ltb NaN (Fin 1) = false
  ∧ pn_ltb (Fin 1) NaN = false ∧ pn_ltb (Fin 1) (Fin 2) = true
  ∧ pn_ltb (Fin 2) (Fin 2) = false.
Proof. by vm_compute. Qed.

Example validate_examples :
  _validate_timestamp 5000 (Fin 3000) = Some (Some (Fin (2900 / 1000)))
  ∧ _validate_timestamp 1000 (Fin 3000) = Some (Some (Fin (1000 / 1000)))
  ∧ _validate_timestamp (-1) (Fin 3000) = Some None
  ∧ _validate_timestamp 7 PInf = Some (Some (Fin (7 / 1000)))
  ∧ _validate_timestamp 0 (Fin 100) = Some (Some (Fin (0 / 1000)))
  ∧ _validate_timestamp (float_limit - 1) PInf
    = Some (Some (Fin (inject_Z (float_limit - 1) / 1000)))
  ∧ _validate_timestamp float_limit PInf = None
  ∧ _validate_timestamp float_limit NaN = None
  ∧ _validate_timestamp float_limit (Fin 3000) = Some (Some (Fin (2900 / 1000)))
  ∧ _validate_timestamp (-1) PInf = Some None.
Proof. by vm_compute. Qed.

Example filename_examples :
  screenshot_filename default_config 0 1000 = "event_001_1000ms.jpg"%string
  ∧ screenshot_filename default_config 11 0 = "event_012_0ms.jpg"%string
  ∧ screenshot_filename default_config 999 123456
    = "event_1000_123456ms.jpg"%string.
Proof. by vm_compute. Qed.

Example dedup_examples :
  _deduplicate_timestamps default_config [0; 499; 500; 999; 1000; 1499]
  = [0; 500; 1000]
  ∧ _deduplicate_timestamps default_config [1300; 100; 400; 700; 1000; 400]
    = [100; 700; 1300]
  ∧ _deduplicate_timestamps default_config [] = [].
Proof. by vm_compute. Qed.

Example plan_example :
  collect_timestamps [event_at 5000; event_at 1000; event_at 1200; event_at 1000]
  = [(5000, [0%nat]); (1000, [1%nat; 3%nat]); (1200, [2%nat])]
  ∧ _prepare_extraction_tasks (paths := string_paths) default_config
      [event_at 5000; event_at 1000; event_at 1200; event_at 1000] (Fin 4000)
      "s/screenshots"%string
    = Some [(1000, (Fin (1000 / 1000),
                    "s/screenshots/event_002_1000ms.jpg"%string, 1%nat));
            (5000, (Fin (3900 / 1000),
                    "s/screenshots/event_001_5000ms.jpg"%string, 0%nat))].
Proof. by vm_compute. Qed.

Example probe_examples :
  str_split "/" "30/1" = ["30"; "1"]%string
  ∧ str_split "/" "" = [""]%string
  ∧ float_of_str (StrParsing := decimal_parsing) "12.500000"
    = Some (Fin (25 # 2))
  ∧ probe_run (parsing := decimal_parsing) stream_duration_report
    = (Some (Fin ((25 # 2) * 1000)), [0; 1]%nat)
  ∧ probe_run (parsing := decimal_parsing) ffprobe_times_out
    = (None, [0; 1; 2]%nat).
Proof. by vm_compute. Qed.

Example upload_example :
  GeminiClient._upload_file_with_retry GeminiClient.slow_remote 3
  = (GeminiClient.Returned
       {| GeminiClient.name := "files/abc";
          GeminiClient.state := GeminiClient.ACTIVE |},
     {| GeminiClient.calls := 5;
        GeminiClient.trace :=
          [GeminiClient.EUpload; GeminiClient.EPrint; GeminiClient.ESleep 2;
           GeminiClient.EUpload;
           GeminiClient.ESleep 1; GeminiClient.EGetFile "files/abc";
           GeminiClient.ESleep 1; GeminiClient.EGetFile "files/abc";
           GeminiClient.ESleep 1; GeminiClient.EGetFile "files/abc"] |}).
Proof. by vm_compute. Qed.

(** ** The ffmpeg command *)

Section command_facts.
Context {paths : PathLib} {format : StrFormat}.

(** X3.  Every command is [ffmpeg], an optional coarse seek, the input,
    the exact seek to the requested time, [-frames:v 1], the scaling filter,
    [-pix_fmt yuv420p], [-strict unofficial], the options of the image
    format, and [-y] with the output file.  The coarse seek is there exactly
    when [fast_seek] is on and the time is beyond ten seconds, and then
    seeks five seconds ahead of the exact time.  The options of the format
    are [-q:v] with the quality and [-huffman optimal] for jpg;
    [-compression_level] with the quality capped at 9 and a second
    [-pix_fmt], [rgba], for png; and none for any other format. *)
Theorem command_seeks_precisely (config : ScreenshotConfig)
    (video_path : string) (timestamp_sec : pynum) (output_path : Path) :
  ∃ coarse quality,
    _build_ffmpeg_command config video_path timestamp_sec output_path
    = ["ffmpeg"%string] ++ coarse
      ++ ["-i"%string; video_path;
          "-ss"%string; str_of_float timestamp_sec;
          "-frames:v"%string; "1"%string;
          "-vf"%string; "scale=trunc(iw/2)*2:trunc(ih/2)*2"%string;
          "-pix_fmt"%string; "yuv420p"%string;
          "-strict"%string; "unofficial"%string]
      ++ quality ++ ["-y"%string; path_str output_path]
    ∧ (fast_seek config = true ∧ pn_ltb (of_int 10) timestamp_sec = true →
       coarse = ["-ss"%string;
                 str_of_float (pn_sub timestamp_sec (of_int 5))])
    ∧ (fast_seek config = false ∨ pn_ltb (of_int 10) timestamp_sec = false →
       coarse = [])
    ∧ (str_lower (image_format config) = "jpg"%string →
       quality = ["-q:v"%string; format_int (image_quality config);
                  "-huffman"%string; "optimal"%string])
    ∧ (str_lower (image_format config) = "png"%string →
       quality = ["-compression_level"%string;
                  format_int (Z.min 9 (image_quality config));
                  "-pix_fmt"%string; "rgba"%string])
    ∧ (str_lower (image_format config) ≠ "jpg"%string →
       str_lower (image_format config) ≠ "png"%string →
       quality = []).
Proof.
  exists (if fast_seek config && pn_ltb (of_int 10) timestamp_sec
          then ["-ss"%string; str_of_float (pn_sub timestamp_sec (of_int 5))]
          else []),
         (if bool_decide (str_lower (image_format config) = "jpg"%string)
          then ["-q:v"%string; format_int (image_quality config);
                "-huffman"%string; "optimal"%string]
          else if bool_decide (str_lower (image_format config) = "png"%string)
          then ["-compression_level"%string;
                format_int (Z.min 9 (image_quality config));
                "-pix_fmt"%string; "rgba"%string]
          else []).
  split; [|split; [|split; [|split; [|split]]]].
  - unfold _build_ffmpeg_command.
    destruct (fast_seek config && pn_ltb (of_int 10) timestamp_sec) eqn:Hfast.
    + apply andb_true_iff in Hfast as [Hon Hfar].
      assert (Hmax : py_max (of_int 0) (pn_sub timestamp_sec (of_int 5))
                     = pn_sub timestamp_sec (of_int 5)).
      { unfold py_max. destruct timestamp_sec as [q| | |]; try done.
        apply pn_ltb_Fin in Hfar. change (inject_Z 10) with 10%Q in Hfar.
        assert (Hpos : pn_ltb (of_int 0) (pn_sub (Fin q) (of_int 5)) = true).
        { apply pn_ltb_Fin. change (inject_Z 0) with 0%Q.
          change (inject_Z 5) with 5%Q. lra. }
        by rewrite Hpos. }
      rewrite Hmax. by repeat case_bool_decide.
    + by repeat case_bool_decide.
  - intros [-> ->]. done.
  - intros [-> | ->]; [done|]. by rewrite andb_false_r.
  - intros Hjpg. by rewrite bool_decide_true.
  - intros Hpng. rewrite bool_decide_false.
    + by rewrite bool_decide_true.
    + rewrite Hpng. done.
  - intros Hjpg Hpng. by rewrite !bool_decide_false.
Qed.
End command_facts.

(** ** Deduplication: coverage and independence of the input order *)

Lemma sweep_covers threshold prev rest x :
  StronglySorted Z.lt (prev :: rest) →
  x ∈ rest →
  ∃ k, k ∈ prev :: sweep threshold prev rest
       ∧ k ≤ x ∧ (x = k ∨ x - k < threshold).
Proof.
  revert prev. induction rest as [|ts rest IH]; intros prev Hs Hx.
  - by apply elem_of_nil in Hx.
  - apply StronglySorted_cons in Hs as [Hall Hs].
    apply Forall_cons in Hall as [Hlt Hall].
    simpl. apply elem_of_cons in Hx as [->|Hx].
    + case_bool_decide as Hgap.
      * exists ts. split; [repeat constructor|lia].
      * exists prev. split; [constructor|lia].
    + case_bool_decide as Hgap.
      * destruct (IH ts Hs Hx) as (k & Hk & ?). exists k.
        split; [by constructor|done].
      * apply IH; [|done]. apply StronglySorted_cons. split; [done|].
        by apply StronglySorted_cons in Hs as [_ ?].
Qed.

(** X4.  Deduplication leaves no candidate timestamp unrepresented: every
    timestamp of the input has a kept timestamp at or before it that is the
    timestamp itself or less than the threshold earlier.  The earliest
    timestamp of the input is always kept. *)
Theorem dedup_covers_candidates (config : ScreenshotConfig)
    (timestamps_ms : list Z) (x : Z) :
  x ∈ timestamps_ms →
  (∃ k, k ∈ _deduplicate_timestamps config timestamps_ms
        ∧ k ≤ x ∧ (x = k ∨ x - k < dedup_threshold_ms config))
  ∧ ((∀ y, y ∈ timestamps_ms → x ≤ y) →
     x ∈ _deduplicate_timestamps config timestamps_ms).
Proof.
  intros Hx.
  assert (Hcover : ∃ k, k ∈ _deduplicate_timestamps config timestamps_ms
            ∧ k ≤ x ∧ (x = k ∨ x - k < dedup_threshold_ms config)).
  { rewrite dedup_unfold.
    pose proof (sorted_set_sorted timestamps_ms) as Hs.
    apply sorted_set_elem_of in Hx.
    destruct (sorted_set timestamps_ms) as [|first rest];
      [by apply elem_of_nil in Hx|].
    apply elem_of_cons in Hx as [->|Hx].
    - exists first. split; [constructor|lia].
    - by apply sweep_covers. }
  split; [done|].
  intros Hmin. destruct Hcover as (k & Hk & Hle & _).
  pose proof (Hmin k (dedup_elem_of _ _ _ Hk)).
  by replace x with k by lia.
Qed.

Lemma dedup_covers_candidates_witness :
  (∃ k, k ∈ _deduplicate_timestamps default_config [1000; 1200; 1205; 5000]
        ∧ k ≤ 1205 ∧ (1205 = k ∨ 1205 - k < dedup_threshold_ms default_config))
  ∧ ((∀ y, y ∈ [1000; 1200; 1205; 5000] → 1205 ≤ y) →
     1205 ∈ _deduplicate_timestamps default_config [1000; 1200; 1205; 5000]).
Proof.
  apply (dedup_covers_candidates default_config [1000; 1200; 1205; 5000] 1205).
  repeat constructor.
Defined.

Lemma sorted_set_ext (l l' : list Z) :
  (∀ x, x ∈ l ↔ x ∈ l') → sorted_set l = sorted_set l'.
Proof.
  intros Hll. apply (StronglySorted_unique Z.le).
  - apply lt_sorted_le_sorted, sorted_set_sorted.
  - apply lt_sorted_le_sorted, sorted_set_sorted.
  - unfold sorted_set. rewrite !merge_sort_Permutation.
    apply NoDup_Permutation; [apply NoDup_remove_dups..|].
    intros x. by rewrite !elem_of_remove_dups.
Qed.

(** X5.  The result of deduplication depends on the set of input timestamps
    only, not on their order or on repetitions. *)
Theorem dedup_depends_on_set_only (config : ScreenshotConfig)
    (timestamps_ms timestamps_ms' : list Z) :
  (∀ x, x ∈ timestamps_ms ↔ x ∈ timestamps_ms') →
  _deduplicate_timestamps config timestamps_ms
  = _deduplicate_timestamps config timestamps_ms'.
Proof.
  intros Hll. rewrite !dedup_unfold. by rewrite (sorted_set_ext _ _ Hll).
Qed.

Lemma dedup_depends_on_set_only_witness :
  _deduplicate_timestamps default_config [5000; 1000; 1200; 1000]
  = _deduplicate_timestamps default_config [1000; 1200; 5000].
Proof.
  apply dedup_depends_on_set_only.
  intros x. rewrite !elem_of_cons, !elem_of_nil. tauto.
Defined.

(** ** Clamping: bounds and order *)

Lemma pn_ltb_Fin_false x y : pn_ltb (Fin x) (Fin y) = false ↔ (y <= x)%Q.
Proof.
  simpl. destruct (Qcompare_spec x y) as [Heq|Hlt|Hgt].
  - split; [intros _; lra|done].
  - split; [done|]. intros ?. lra.
  - split; [intros _; lra|done].
Qed.

(** What [clamped_ms] computes, case by case. *)
Lemma clamped_ms_value ts D :
  0 ≤ ts →
  ∃ c, clamped_ms ts D = Fin c
       ∧ match D with
         | Fin d =>
             ((inject_Z ts <= d - 100)%Q ∧ c = inject_Z ts)
             ∨ ((d - 100 < inject_Z ts)%Q ∧ (0 < d - 100)%Q ∧ c = (d - 100)%Q)
             ∨ ((d - 100 < inject_Z ts)%Q ∧ (d - 100 <= 0)%Q ∧ c = 0%Q)
         | NInf => c = 0%Q
         | PInf | NaN => c = inject_Z ts
         end.
Proof.
  intros Hts.
  assert (Hq : (0 <= inject_Z ts)%Q).
  { change 0%Q with (inject_Z 0). by rewrite <- Zle_Qle. }
  assert (Hmax : py_max (of_int 0) (of_int ts) = of_int ts).
  { unfold py_max, of_int.
    destruct (pn_ltb (Fin (inject_Z 0)) (Fin (inject_Z ts))) eqn:Hlt; [done|].
    apply pn_ltb_Fin_false in Hlt. change (inject_Z 0) with 0%Q in Hlt.
    assert (Heq : (inject_Z ts == inject_Z 0)%Q) by (change (inject_Z 0) with 0%Q; lra).
    apply (proj1 (inject_Z_injective ts 0)) in Heq. by subst. }
  destruct D as [d| | |]; unfold clamped_ms.
  - change (pn_sub (Fin d) (of_int 100)) with (Fin (d - 100)).
    unfold py_min.
    destruct (pn_ltb (Fin (d - 100)) (of_int ts)) eqn:Hmin.
    + apply pn_ltb_Fin in Hmin. unfold py_max, of_int.
      change (inject_Z 0) with 0%Q.
      destruct (pn_ltb (Fin 0) (Fin (d - 100))) eqn:Hpos.
      * apply pn_ltb_Fin in Hpos. exists (d - 100)%Q. split; [done|].
        right; left. done.
      * apply pn_ltb_Fin_false in Hpos. exists 0%Q. split; [done|].
        right; right. done.
    + apply pn_ltb_Fin_false in Hmin. rewrite Hmax.
      exists (inject_Z ts). split; [done|]. by left.
  - exists (inject_Z ts). split; [|done]. simpl. exact Hmax.
  - exists 0%Q. split; [|done]. by simpl.
  - exists (inject_Z ts). split; [|done]. simpl. exact Hmax.
Qed.

(** X6.  Whatever the duration is (a number, infinite or not a number),
    the clamped value of a timestamp that is not negative is a finite time
    that is not negative and not later than the timestamp itself; it is the
    timestamp itself when that lies at least 100 ms before a known end, and
    when the duration is infinite or not a number.  Validation returns the
    clamped value divided by 1000, except that it raises when the clamped
    value is an [int] of [float_limit] or more, which happens exactly when
    the duration is infinite or not a number and the timestamp is that
    large.  Clamping keeps the order of timestamps. *)
Theorem clamp_never_later (timestamp_ms : Z) (max_duration_ms : pynum) :
  0 ≤ timestamp_ms →
  ∃ c,
    clamped_ms timestamp_ms max_duration_ms = Fin c
    ∧ _validate_timestamp timestamp_ms max_duration_ms
      = (if converts timestamp_ms max_duration_ms
         then Some (Some (Fin (c / 1000)))
         else None)
    ∧ (converts timestamp_ms max_duration_ms = false
       ↔ float_limit ≤ timestamp_ms
         ∧ (max_duration_ms = PInf ∨ max_duration_ms = NaN))
    ∧ (0 <= c)%Q ∧ (c <= inject_Z timestamp_ms)%Q
    ∧ (∀ d, max_duration_ms = Fin d → (inject_Z timestamp_ms <= d - 100)%Q →
            c = inject_Z timestamp_ms)
    ∧ (max_duration_ms = PInf ∨ max_duration_ms = NaN →
       c = inject_Z timestamp_ms)
    ∧ ∀ later,
        timestamp_ms ≤ later →
        ∃ c', clamped_ms later max_duration_ms = Fin c' ∧ (c <= c')%Q.
Proof.
  intros Hts.
  assert (Hq : (0 <= inject_Z timestamp_ms)%Q).
  { change 0%Q with (inject_Z 0). by rewrite <- Zle_Qle. }
  destruct (clamped_ms_value timestamp_ms max_duration_ms Hts) as (c & Hc & Hv).
  exists c. split; [done|].
  split.
  { destruct (converts timestamp_ms max_duration_ms) eqn:Hconv.
    - by rewrite validate_nonneg, Hc by done.
    - apply validate_raises. unfold plannable. rewrite Hconv.
      by rewrite bool_decide_false by lia. }
  split.
  { unfold converts. destruct max_duration_ms; split;
      try (intros [_ [?|?]]; done); try done.
    - intros Hc'%bool_decide_eq_false. split; [lia|by left].
    - intros [? _]. apply bool_decide_eq_false. lia.
    - intros Hc'%bool_decide_eq_false. split; [lia|by right].
    - intros [? _]. apply bool_decide_eq_false. lia. }
  split; [destruct max_duration_ms; intuition (subst; lra)|].
  split; [destruct max_duration_ms; intuition (subst; lra)|].
  split.
  { intros d -> Hd. intuition (subst; lra). }
  split.
  { intros [->| ->]; done. }
  intros later Hlater.
  assert (Hql : (inject_Z timestamp_ms <= inject_Z later)%Q)
    by by rewrite <- Zle_Qle.
  destruct (clamped_ms_value later max_duration_ms ltac:(lia)) as (c' & Hc' & Hv').
  exists c'. split; [done|].
  destruct max_duration_ms; intuition (subst; lra).
Qed.

Lemma clamp_never_later_witness :
  (∃ c,
     clamped_ms 7000 (Fin 5000) = Fin c
     ∧ _validate_timestamp 7000 (Fin 5000) = Some (Some (Fin (c / 1000)))
     ∧ (0 <= c)%Q ∧ (c <= inject_Z 7000)%Q)
  ∧ ∃ c,
      clamped_ms float_limit PInf = Fin c
      ∧ _validate_timestamp float_limit PInf = None
      ∧ c = inject_Z float_limit.
Proof.
  split.
  - destruct (clamp_never_later 7000 (Fin 5000)) as (c & Hc & Hv & _ & H0 & Hle & _);
      [lia|].
    exists c. split; [exact Hc|]. split; [exact Hv|]. split; [exact H0|exact Hle].
  - destruct (clamp_never_later float_limit PInf)
      as (c & Hc & Hv & _ & _ & _ & _ & Hsame & _); [vm_compute; discriminate|].
    exists c. split; [exact Hc|]. split; [exact Hv|]. apply Hsame. by left.
Defined.

(** ** The run: soundness and completeness of the references *)

Section run_facts.
Context {paths : PathLib} {parsing : StrParsing}.
Implicit Types (config : ScreenshotConfig) (w : World).

Lemma batch_same_futures (tasks : list (Z * Task)) completed completed' outcome :
  (∀ ts, ts ∈ completed ↔ ts ∈ completed') →
  _batch_extract_screenshots tasks completed outcome
  = _batch_extract_screenshots tasks completed' outcome.
Proof.
  intros Hsame. apply map_eq. intros ts. rewrite !batch_lookup.
  destruct (decide (ts ∈ completed)) as [Hin|Hout].
  - by rewrite decide_True by by apply Hsame.
  - by rewrite decide_False by by rewrite <- Hsame.
Qed.

(** The outcome recorded for a timestamp that has a task. *)
Lemma task_outcome_entry w (plan : list (Z * Task)) ts artifact :
  outcome_entry plan (task_outcome w plan) ts = Some artifact →
  ∃ sec path i,
    dict_get ts plan = Some (sec, path, i)
    ∧ ffmpeg w sec path = FfmpegExited 0 true
    ∧ artifact = path_name path.
Proof.
  unfold outcome_entry, task_outcome.
  destruct (dict_get ts plan) as [[[sec path] i]|] eqn:Hget; simpl; [|done].
  destruct (_extract_single_screenshot (ffmpeg w) sec path) eqn:Hrun; [|done].
  intros [= <-]. exists sec, path, i. split; [done|]. split; [|done].
  unfold _extract_single_screenshot in Hrun.
  destruct (ffmpeg w sec path) as [| |returncode output_exists]; try done.
  apply andb_prop in Hrun as [Hcode ->]. apply bool_decide_eq_true in Hcode.
  by subst.
Qed.

Lemma bind_event_cases config results e :
  bind_event config results e = e
  ∨ ∃ ts artifact,
      timestamp_ms e = Some ts
      ∧ results !! ts = Some (Some artifact)
      ∧ artifact ≠ ""%string
      ∧ bind_event config results e
        = set_screenshot_path e
            (Some (screenshot_subdir config +:+ "/" +:+ artifact)).
Proof.
  unfold bind_event.
  destruct (timestamp_ms e) as [ts|] eqn:Hts; [|by left].
  destruct (results !! ts) as [[artifact|]|] eqn:Hres; [|by left..].
  case_bool_decide as Hempty; [by left|].
  right. by exists ts, artifact.
Qed.

(** X7.  A run changes nothing but screenshot references, and every reference
    it sets is backed by a capture: the returned list has the length of the
    input, and each event is returned as it was or is an action event whose
    timestamp is not negative and survived deduplication, for which ffmpeg
    exited with code 0 and left the output file of the task planned for that
    timestamp; the event then refers to that file under the screenshot
    directory and is otherwise unchanged. *)
Theorem screenshot_reference_sound (config : ScreenshotConfig) (w : World)
    (events events' : list VideoEvent) (session_dir : Path) :
  extract_event_screenshots config w events session_dir = Some events' →
  let action_events := filter (λ e, is_action e = true) events in
  let video_duration_ms :=
    clamping_duration (_get_video_duration_ms (ffprobe w)) in
  let screenshots_dir := path_div session_dir (screenshot_subdir config) in
  length events' = length events
  ∧ ∀ k e,
      events !! k = Some e →
      ∃ e',
        events' !! k = Some e'
        ∧ (e' = e
           ∨ ∃ ts i timestamp_sec,
               is_action e = true
               ∧ timestamp_ms e = Some ts
               ∧ 0 ≤ ts
               ∧ ts ∈ kept config action_events
               ∧ first_index action_events ts = Some i
               ∧ _validate_timestamp ts video_duration_ms
                 = Some (Some timestamp_sec)
               ∧ let output_path :=
                   path_div screenshots_dir (screenshot_filename config i ts) in
                 ffmpeg w timestamp_sec output_path = FfmpegExited 0 true
                 ∧ path_name output_path ≠ ""%string
                 ∧ e' = set_screenshot_path e
                          (Some (screenshot_subdir config +:+ "/"
                                 +:+ path_name output_path))).
Proof.
  intros Hrun actions D dir.
  apply extract_cases in Hrun as [->|(plan & Hplan & ->)].
  { split; [done|]. intros k e Hk. exists e. split; [done|by left]. }
  split; [by rewrite length_fmap|].
  intros k e Hk. eexists. split; [by rewrite list_lookup_fmap, Hk|].
  destruct (is_action e) eqn:Hact; [|by left].
  destruct (bind_event_cases config
              (_batch_extract_screenshots plan (completed w plan)
                 (task_outcome w plan)) e)
    as [->|(ts & artifact & Hts & Hres & Hne & ->)]; [by left|].
  right. rewrite batch_lookup in Hres.
  destruct (decide (ts ∈ completed w plan)); [|done].
  injection Hres as Hres.
  apply task_outcome_entry in Hres as (sec & path & i & Hget & Hff & ->).
  fold actions D dir in Hplan. apply prepare_Some in Hplan as [-> _].
  apply dict_get_Some_elem_of, plan_elem_of in Hget
    as (Hkept & Hval & Hfirst & ->).
  exists ts, i, sec. repeat (split; [done|]).
  split; [|done].
  destruct (decide (0 ≤ ts)); [done|].
  rewrite validate_negative in Hval by lia. done.
Qed.





(** X10.  The result of a run does not depend on the order in which the
    futures complete. *)
Theorem completion_order_irrelevant (config : ScreenshotConfig) (w : World)
    (order : list (Z * Task) → list Z) (events : list VideoEvent)
    (session_dir : Path) :
  as_completed_ok w →
  (∀ extraction_tasks, order extraction_tasks ≡ₚ dict_keys extraction_tasks) →
  extract_event_screenshots config
    {| resolve_ok := resolve_ok w; video_exists := video_exists w;
       ffprobe := ffprobe w; mkdir_ok := mkdir_ok w; ffmpeg := ffmpeg w;
       completed := order |}
    events session_dir
  = extract_event_screenshots config w events session_dir.
Proof.
  intros Hok Horder. unfold extract_event_screenshots. simpl.
  case_bool_decide; [done|].
  case_bool_decide; [done|].
  destruct (resolve_ok w); simpl; [|done].
  destruct (video_exists w); simpl; [|done].
  destruct (mkdir_ok w); simpl; [|done].
  destruct (_prepare_extraction_tasks _ _ _ _) as [plan|]; simpl; [|done].
  case_bool_decide; [done|].
  case_bool_decide; [done|].
  rewrite (batch_same_futures plan (order plan) (completed w plan)); [done|].
  intros ts. by rewrite (Horder plan), (Hok plan).
Qed.

End run_facts.

Lemma screenshot_reference_sound_witness :
  length [set_screenshot_path (event_at 1000)
            (Some "screenshots/event_001_1000ms.jpg"%string);
          event_at 1200]
  = length [event_at 1000; event_at 1200]
  ∧ ∃ e',
      [set_screenshot_path (event_at 1000)
         (Some "screenshots/event_001_1000ms.jpg"%string);
       event_at 1200] !! 0%nat = Some e'
      ∧ e' ≠ event_at 1000.
Proof.
  assert (Hrun : extract_event_screenshots (parsing := decimal_parsing)
                   default_config sample_world
                   [event_at 1000; event_at 1200] "session"%string
                 = Some [set_screenshot_path (event_at 1000)
                           (Some "screenshots/event_001_1000ms.jpg"%string);
                         event_at 1200])
    by (vm_compute; reflexivity).
  destruct (screenshot_reference_sound (paths := string_paths)
              (parsing := decimal_parsing)
              default_config sample_world _ _ "session"%string Hrun)
    as [Hlen Hall].
  split; [exact Hlen|].
  destruct (Hall 0%nat (event_at 1000) eq_refl) as (e' & He' & _).
  exists e'. split; [exact He'|].
  injection He' as <-. discriminate.
Defined.



Lemma completion_order_irrelevant_witness :
  extract_event_screenshots (parsing := decimal_parsing) default_config
    {| resolve_ok := resolve_ok sample_world;
       video_exists := video_exists sample_world;
       ffprobe := ffprobe sample_world;
       mkdir_ok := mkdir_ok sample_world;
       ffmpeg := ffmpeg sample_world;
       completed := last_first |}
    [event_at 1000; event_at 5000] "session"%string
  = extract_event_screenshots (parsing := decimal_parsing) default_config
      sample_world [event_at 1000; event_at 5000] "session"%string.
Proof.
  apply (completion_order_irrelevant (paths := string_paths) default_config
           sample_world last_first).
  - intros extraction_tasks. reflexivity.
  - intros extraction_tasks. apply reverse_Permutation.
Defined.

(** ** The upload: cost *)

Module UploadCost.
Import GeminiClient GeminiClientFacts.

Lemma sleep_seconds_app t1 t2 :
  sleep_seconds (t1 ++ t2) = (sleep_seconds t1 + sleep_seconds t2)%nat.
Proof.
  induction t1 as [|e t1 IH]; simpl; [done|]. destruct e; rewrite ?IH; lia.
Qed.

Lemma sleep_seconds_record call es s :
  sleep_seconds (trace (record call es s))
  = (sleep_seconds (trace s) + sleep_seconds es)%nat.
Proof. unfold record. simpl. apply sleep_seconds_app. Qed.

Lemma poll_loop_cost remote budget f s o s' :
  poll_loop remote budget f s = (o, s') →
  ∃ polls, (polls ≤ budget)%nat ∧ adds s s' 0 polls polls.
Proof.
  revert f s. induction budget as [|budget IH]; intros f s; simpl.
  - intros [= <- <-]. exists 0%nat. unfold adds. lia.
  - case_bool_decide as Hact.
    + intros [= <- <-]. exists 0%nat. unfold adds. lia.
    + destruct (get_file remote _ _) as [|f'].
      * intros [= <- <-]. exists 1%nat. unfold adds.
        rewrite !count_record, !sleep_seconds_record. simpl. lia.
      * intros Hrec. apply IH in Hrec as (polls & Hle & Hadd).
        exists (S polls). unfold adds in *.
        rewrite !count_record, !sleep_seconds_record in Hadd.
        simpl in Hadd. lia.
Qed.

Lemma on_exception_cost max_retries attempt s o s' :
  on_exception max_retries attempt s = (o, s') →
  adds s s' 0 0 (match o with AttemptContinue => 2 | _ => 0 end)
  ∧ (o = AttemptContinue → (attempt < max_retries - 1)%nat).
Proof.
  unfold on_exception, adds. case_bool_decide; intros [= <- <-].
  - rewrite !count_record, sleep_seconds_record. simpl. split; [lia|done].
  - simpl. split; [lia|done].
Qed.

Lemma one_attempt_cost remote max_retries attempt s o s' :
  one_attempt remote max_retries attempt s = (o, s') →
  ∃ polls,
    (polls ≤ 10)%nat
    ∧ adds s s' 1 polls
        (polls + match o with AttemptContinue => 2 | _ => 0 end)
    ∧ (o = AttemptContinue → (attempt < max_retries - 1)%nat).
Proof.
  unfold one_attempt.
  assert (Hup : adds s (record true [EUpload] s) 1 0 0).
  { unfold adds. rewrite !count_record, sleep_seconds_record. simpl. lia. }
  destruct (upload_file remote (calls s)) as [|f].
  - intros [Hc Ho]%on_exception_cost. exists 0%nat. unfold adds in *.
    split; [lia|]. split; [|done]. simpl. lia.
  - destruct (poll_loop remote 10 f (record true [EUpload] s)) as [po s2] eqn:Hp.
    apply poll_loop_cost in Hp as (polls & Hle & Hp). unfold adds in *.
    destruct po as [f'|f'|].
    + intros [= <- <-]. exists polls. simpl. split; [lia|]. split; [lia|done].
    + case_bool_decide as Hact; simpl.
      * intros [= <- <-]. exists polls. simpl.
        split; [lia|]. split; [lia|done].
      * case_bool_decide as Hleft.
        -- intros [= <- <-]. exists polls.
           rewrite !count_record, !sleep_seconds_record.
           simpl. split; [lia|]. split; [lia|done].
        -- intros [Hc Ho]%on_exception_cost. exists polls. unfold adds in Hc.
           rewrite !count_record, !sleep_seconds_record in Hc.
           simpl in Hc. split; [lia|]. split; [lia|done].
    + intros [Hc Ho]%on_exception_cost. exists polls. unfold adds in Hc.
      split; [lia|]. split; [lia|done].
Qed.

Lemma attempt_loop_cost remote max_retries remaining attempt s result s' :
  (attempt + remaining = max_retries)%nat →
  attempt_loop remote max_retries remaining attempt s = (result, s') →
  ∃ uploads polls seconds,
    adds s s' uploads polls seconds
    ∧ (uploads ≤ remaining)%nat
    ∧ (polls ≤ 10 * uploads)%nat
    ∧ (seconds ≤ 12 * remaining - 2)%nat.
Proof.
  revert attempt s. induction remaining as [|remaining IH];
    intros attempt s Hsum; simpl.
  - intros [= <- <-]. exists 0%nat, 0%nat, 0%nat. unfold adds. lia.
  - destruct (one_attempt remote max_retries attempt s) as [o s1] eqn:H1.
    apply one_attempt_cost in H1 as (polls & Hle & Hadd & Hcont).
    unfold adds in *. destruct o as [f| |].
    + intros [= <- <-]. exists 1%nat, polls, polls. simpl in Hadd. lia.
    + intros Hrec. specialize (Hcont eq_refl).
      apply IH in Hrec as (u & p & sec & Hadd' & Hu & Hp & Hsec); [|lia].
      exists (S u), (polls + p)%nat, (polls + 2 + sec)%nat.
      simpl in Hadd. lia.
    + intros [= <- <-]. exists 1%nat, polls, polls. simpl in Hadd. lia.
Qed.

(** X11.  What an upload can cost, whatever the remote service answers: every
    remote call is an upload or a poll, there are at most [max_retries]
    uploads and at most ten polls for each, and the function sleeps at most
    [12 * max_retries - 2] seconds in all.  With [max_retries = 0] it
    returns [None] at once, without any call. *)
Theorem upload_cost_bounded (remote : Remote) (max_retries : nat) :
  let run := _upload_file_with_retry remote max_retries in
  calls run.2
  = (count is_upload (trace run.2) + count is_poll (trace run.2))%nat
  ∧ (count is_upload (trace run.2) ≤ max_retries)%nat
  ∧ (count is_poll (trace run.2) ≤ 10 * count is_upload (trace run.2))%nat
  ∧ (sleep_seconds (trace run.2) ≤ 12 * max_retries - 2)%nat
  ∧ _upload_file_with_retry remote 0
    = (ReturnedNone, {| calls := 0; trace := [] |}).
Proof.
  intros run. unfold run, _upload_file_with_retry.
  destruct (attempt_loop remote max_retries max_retries 0 _) as [result s']
    eqn:Hrun.
  apply attempt_loop_cost in Hrun as (u & p & sec & Hadd & ? & ? & ?); [|lia].
  unfold adds in Hadd. simpl in *. repeat split; try lia.
Qed.

End UploadCost.

(** ** Admission control: progress *)

Lemma phase_count_insert (r : phase) (l : list phase) i p q :
  l !! i = Some p →
  (length (filter (λ x, x = r) (<[i := q]> l))
   + (if decide (p = r) then 1 else 0)
   = length (filter (λ x, x = r) l)
     + (if decide (q = r) then 1 else 0))%nat.
Proof.
  revert i. induction l as [|x l IH]; intros [|i] Hi; simpl in Hi; try done.
  - injection Hi as ->. clear IH.
    change (<[0%nat := q]> (p :: l)) with (q :: l).
    rewrite !filter_cons.
    generalize (length (filter (λ x, x = r) l)). intros m.
    repeat case_decide; cbn [length]; lia.
  - specialize (IH i Hi).
    change (<[S i := q]> (x :: l)) with (x :: <[i := q]> l).
    rewrite !filter_cons. repeat case_decide; cbn [length]; lia.
Qed.

Lemma phase_count_pos (r : phase) (l : list phase) :
  (0 < length (filter (λ x, x = r) l))%nat → ∃ i, l !! i = Some r.
Proof.
  intros Hpos. destruct (filter _ l) as [|x l'] eqn:Hf; [simpl in Hpos; lia|].
  assert (Hx : x ∈ filter (λ x, x = r) l) by (rewrite Hf; constructor).
  apply list_elem_of_filter in Hx as [-> Hx].
  by apply list_elem_of_lookup_1 in Hx.
Qed.

Lemma phase_count_zero (l : list phase) :
  length (filter (λ x, x = Queued) l) = 0%nat →
  length (filter (λ x, x = InFlight) l) = 0%nat →
  Forall (λ p, p = Finished) l.
Proof.
  induction l as [|x l IH]; [constructor|].
  rewrite !filter_cons. destruct x; simpl; try done.
  intros. constructor; [done|]. by apply IH.
Qed.

Lemma phase_count_finished (r : phase) (l : list phase) :
  r ≠ Finished → Forall (λ p, p = Finished) l →
  length (filter (λ x, x = r) l) = 0%nat.
Proof.
  intros Hr. induction 1 as [|x l -> _ IH]; [done|].
  by rewrite filter_cons, decide_False.
Qed.

Lemma phase_count_replicate (r p : phase) n :
  length (filter (λ x, x = r) (replicate n p))
  = if decide (p = r) then n else 0%nat.
Proof.
  induction n as [|n IH]; simpl; [by case_decide|].
  rewrite filter_cons. repeat case_decide; simpl; try done; lia.
Qed.

Lemma pool_step_pending s s' :
  pool_step s s' →
  pending s = S (pending s') ∧ length (phases s') = length (phases s).
Proof.
  intros [s0 i Hi Hpos|s0 i Hi]; unfold pending, in_phase; simpl.
  - pose proof (phase_count_insert Queued _ _ _ InFlight Hi) as Hq.
    pose proof (phase_count_insert InFlight _ _ _ InFlight Hi) as Hf.
    rewrite decide_True, decide_False in Hq by done.
    rewrite decide_False, decide_True in Hf by done.
    rewrite length_insert. split; [lia|done].
  - pose proof (phase_count_insert Queued _ _ _ Finished Hi) as Hq.
    pose proof (phase_count_insert InFlight _ _ _ Finished Hi) as Hf.
    rewrite !decide_False in Hq by done.
    rewrite decide_True, decide_False in Hf by done.
    rewrite length_insert. split; [lia|done].
Qed.

Lemma pool_nsteps_invariant config n k s :
  nsteps pool_step k (pool_init config n) s →
  (pending s + k = 2 * n)%nat
  ∧ length (phases s) = n
  ∧ permits s + Z.of_nat (in_flight s) = max_concurrent_extractions config.
Proof.
  revert s. induction k as [|k IH]; intros s Hrun.
  - inversion Hrun; subst. unfold pending, in_phase, pool_init. simpl.
    rewrite !phase_count_replicate, length_replicate.
    rewrite decide_True, decide_False by done.
    pose proof (in_flight_init config n) as Hz. unfold pool_init in Hz.
    rewrite Hz. simpl. lia.
  - apply nsteps_inv_r in Hrun as (s1 & Hrun & Hstep).
    apply IH in Hrun as (Hpend & Hlen & Hbal).
    pose proof (pool_step_pending _ _ Hstep) as [Hdec Hlen'].
    apply pool_step_balance in Hstep as [Hbal' _]. lia.
Qed.

(** X12.  With a positive limit the semaphore never blocks the executor for
    good: from the state after [n] submissions every run takes at most
    [2 * n] steps, a step is possible as long as fewer were taken, and after
    exactly [2 * n] steps, and only then, every task is finished. *)
Theorem pool_runs_to_completion (config : ScreenshotConfig) (n k : nat)
    (s : pool) :
  0 < max_concurrent_extractions config →
  nsteps pool_step k (pool_init config n) s →
  (k ≤ 2 * n)%nat
  ∧ length (phases s) = n
  ∧ (k = (2 * n)%nat ↔ Forall (λ p, p = Finished) (phases s))
  ∧ ((k < 2 * n)%nat → ∃ s', pool_step s s').
Proof.
  intros Hlimit Hrun.
  apply pool_nsteps_invariant in Hrun as (Hpend & Hlen & Hbal).
  unfold pending, in_phase, in_flight in *.
  split; [lia|]. split; [done|]. split; [split|].
  - intros ->. apply phase_count_zero; lia.
  - intros Hall.
    rewrite !phase_count_finished in Hpend by done. lia.
  - intros Hlt.
    destruct (decide (0 < length (filter (λ x, x = InFlight) (phases s)))%nat)
      as [Hin|Hnone].
    + apply phase_count_pos in Hin as [i Hi].
      eexists. by apply (step_release s i).
    + assert (Hq : (0 < length (filter (λ x, x = Queued) (phases s)))%nat)
        by lia.
      apply phase_count_pos in Hq as [i Hi].
      eexists. apply (step_acquire s i); [done|lia].
Qed.

Lemma pool_runs_to_completion_witness :
  (2 ≤ 2 * 2)%nat
  ∧ length [InFlight; InFlight] = 2%nat
  ∧ (2%nat = (2 * 2)%nat ↔ Forall (λ p, p = Finished) [InFlight; InFlight])
  ∧ ((2 < 2 * 2)%nat →
     ∃ s', pool_step {| permits := 2; phases := [InFlight; InFlight] |} s').
Proof.
  apply (pool_runs_to_completion default_config 2 2
           {| permits := 2; phases := [InFlight; InFlight] |}); [reflexivity|].
  eapply nsteps_l;
    [exact (step_acquire (pool_init default_config 2) 0 eq_refl eq_refl)|].
  eapply nsteps_l;
    [exact (step_acquire {| permits := 3; phases := [InFlight; Queued] |} 1
              eq_refl eq_refl)|].
  apply nsteps_O.
Defined.

(** ** File names *)

Lemma append_cons c (a b : string) : String c a +:+ b = String c (a +:+ b).
Proof. reflexivity. Qed.

Lemma str_contains_app c (a b : string) :
  str_contains c (a +:+ b) = str_contains c a || str_contains c b.
Proof.
  induction a as [|x a IH]; [done|].
  rewrite append_cons. simpl. by case_decide.
Qed.

(** Cutting two strings at the first occurrence of a character. *)
Lemma append_cut c (a a' r r' : string) :
  str_contains c a = false → str_contains c a' = false →
  a +:+ String c r = a' +:+ String c r' → a = a' ∧ r = r'.
Proof.
  revert a'. induction a as [|x a IH]; intros [|x' a']; simpl.
  - intros _ _ [= ->]. done.
  - case_decide as Hx; [done|]. intros _ _. rewrite append_cons.
    intros [= <- _]. done.
  - case_decide as Hx; [done|]. intros _ _. rewrite append_cons.
    intros [= -> _]. done.
  - case_decide; [done|]. case_decide; [done|]. intros Ha Ha'.
    rewrite !append_cons. intros [= -> Heq].
    by destruct (IH a' Ha Ha' Heq) as [-> ->].
Qed.

Lemma uint_no_char c d :
  str_contains c "0123456789" = false →
  str_contains c (NilEmpty.string_of_uint d) = false.
Proof.
  intros Hc. induction d; simpl; [done|..];
    (case_decide as Heq; [subst c; simpl in Hc; discriminate Hc|done]).
Qed.

Lemma zeros_cons k :
  String.concat "" (replicate (S k) "0"%string)
  = String "0" (String.concat "" (replicate k "0"%string)).
Proof. destruct k; reflexivity. Qed.

Lemma zeros_no_char c k :
  str_contains c "0123456789" = false →
  str_contains c (String.concat "" (replicate k "0"%string)) = false.
Proof.
  intros Hc. induction k as [|k IH]; [done|].
  rewrite zeros_cons. simpl.
  case_decide as Heq; [subst c; simpl in Hc; discriminate Hc|done].
Qed.

Lemma nilzero_no_char c d :
  str_contains c "0123456789" = false →
  str_contains c (NilZero.string_of_uint d) = false.
Proof.
  intros Hc. destruct d; try apply (uint_no_char c _ Hc).
  simpl. case_decide as Heq; [subst c; simpl in Hc; discriminate Hc|done].
Qed.

Lemma format_03d_no_char c n :
  str_contains c "0123456789" = false →
  str_contains c (format_03d n) = false.
Proof.
  intros Hc. unfold format_03d. rewrite str_contains_app.
  by rewrite zeros_no_char, nilzero_no_char.
Qed.

Lemma format_int_no_char c z :
  str_contains c "-0123456789" = false →
  str_contains c (format_int z) = false.
Proof.
  intros Hc.
  assert (Hd : str_contains c "0123456789" = false).
  { simpl in Hc. by case_decide. }
  unfold format_int. destruct (Z.to_int z) as [d|d]; simpl.
  - by apply nilzero_no_char.
  - case_decide as Heq; [subst c; simpl in Hc; discriminate Hc|].
    by apply nilzero_no_char.
Qed.

(** Reading a padded number back. *)
Lemma read_zeros k s d :
  NilEmpty.uint_of_string s = Some d →
  ∃ d', NilEmpty.uint_of_string
          (String.concat "" (replicate k "0"%string) +:+ s) = Some d'
        ∧ Nat.of_uint d' = Nat.of_uint d.
Proof.
  intros Hs. induction k as [|k (d' & Hd' & Hval)]; [by exists d|].
  rewrite zeros_cons, append_cons. simpl. rewrite Hd'. simpl.
  exists (Decimal.D0 d'). split; [done|]. rewrite <- Hval. reflexivity.
Qed.

Lemma read_nilzero d :
  ∃ d', NilEmpty.uint_of_string (NilZero.string_of_uint d) = Some d'
        ∧ Nat.of_uint d' = Nat.of_uint d.
Proof.
  destruct d; try (eexists; split; [apply NilEmpty.usu|done]).
  by exists (Decimal.D0 Decimal.Nil).
Qed.

Lemma format_03d_read n :
  Nat.of_uint <$> NilEmpty.uint_of_string (format_03d n) = Some n.
Proof.
  unfold format_03d.
  destruct (read_nilzero (Nat.to_uint n)) as (d & Hd & Hval).
  destruct (read_zeros (3 - String.length (NilZero.string_of_uint (Nat.to_uint n)))
              _ _ Hd) as (d' & -> & Hval').
  simpl. by rewrite Hval', Hval, DecimalNat.Unsigned.of_to.
Qed.

Lemma format_03d_inj n n' : format_03d n = format_03d n' → n = n'.
Proof.
  intros Heq. pose proof (format_03d_read n) as Hn.
  rewrite Heq, format_03d_read in Hn. by injection Hn.
Qed.

Lemma format_int_inj z z' : format_int z = format_int z' → z = z'.
Proof.
  unfold format_int. intros Heq. apply DecimalZ.to_int_inj.
  assert (Hread : ∀ z, NilZero.int_of_string (NilZero.string_of_int (Z.to_int z))
                       = Some (Z.to_int z)).
  { intros [|p|p]; [done|..]; apply NilZero.isi; simpl; try done;
      intros [= Hnil]; by apply DecimalPos.Unsigned.to_uint_nonnil in Hnil. }
  pose proof (Hread z) as Hz. rewrite Heq, Hread in Hz. by injection Hz.
Qed.

Lemma screenshot_filename_inj config i i' ts ts' :
  screenshot_filename config i ts = screenshot_filename config i' ts' →
  i = i' ∧ ts = ts'.
Proof.
  unfold screenshot_filename. intros Heq.
  apply String.app_inj in Heq.
  change ("_" +:+ ?s)%string with (String "_" s) in Heq.
  apply append_cut in Heq as [Hi Heq];
    [|by apply format_03d_no_char..].
  change ("ms." +:+ ?s)%string with (String "m" ("s." +:+ s)) in Heq.
  apply append_cut in Heq as [Hts _];
    [|by apply format_int_no_char..].
  apply format_03d_inj in Hi. apply format_int_inj in Hts.
  split; [lia|done].
Qed.

Section file_names.
Context {paths : PathLib}.

(** X13.  No two tasks of a plan write to the same file: each task's output
    path is the screenshot directory joined with the name built from its
    event index and timestamp, and two tasks of one plan with the same name
    are the same task.  The name determines both the event index and the
    timestamp it was built from. *)
Theorem planned_files_distinct (config : ScreenshotConfig)
    (events : list VideoEvent) (video_duration_ms : pynum)
    (screenshots_dir : Path) (plan : list (Z * Task))
    (ts1 ts2 : Z) (sec1 sec2 : pynum) (path1 path2 : Path) (i1 i2 : nat) :
  _prepare_extraction_tasks config events video_duration_ms screenshots_dir
  = Some plan →
  (ts1, (sec1, path1, i1)) ∈ plan →
  (ts2, (sec2, path2, i2)) ∈ plan →
  path1 = path_div screenshots_dir (screenshot_filename config i1 ts1)
  ∧ path2 = path_div screenshots_dir (screenshot_filename config i2 ts2)
  ∧ (screenshot_filename config i1 ts1 = screenshot_filename config i2 ts2 →
     ts1 = ts2 ∧ sec1 = sec2 ∧ path1 = path2 ∧ i1 = i2)
  ∧ ∀ i i' ts ts',
      screenshot_filename config i ts = screenshot_filename config i' ts' →
      i = i' ∧ ts = ts'.
Proof.
  intros Hplan H1 H2. apply prepare_Some in Hplan as [-> _].
  pose proof (plan_elem_of _ _ _ _ _ _ _ _ H1) as (_ & Hsec1 & _ & Hp1).
  pose proof (plan_elem_of _ _ _ _ _ _ _ _ H2) as (_ & Hsec2 & _ & Hp2).
  split; [done|]. split; [done|].
  split; [|intros i i' ts ts'; apply screenshot_filename_inj].
  intros [-> ->]%screenshot_filename_inj.
  rewrite Hsec1 in Hsec2. injection Hsec2 as ->. by subst.
Qed.
End file_names.

Lemma planned_files_distinct_witness :
  (screenshot_filename default_config 0 1000
   = screenshot_filename default_config 1 5000 →
   1000 = 5000 ∧ Fin (1000 / 1000) = Fin (5000 / 1000)
   ∧ "s/event_001_1000ms.jpg"%string = "s/event_002_5000ms.jpg"%string
   ∧ 0%nat = 1%nat)
  ∧ screenshot_filename default_config 0 1000 = "event_001_1000ms.jpg"%string
  ∧ screenshot_filename default_config 1 5000 = "event_002_5000ms.jpg"%string.
Proof.
  split; [|split; reflexivity].
  refine (proj1 (proj2 (proj2
    (planned_files_distinct (paths := string_paths) default_config
       [event_at 1000; event_at 5000] PInf "s"%string _
       1000 5000 (Fin (1000 / 1000)) (Fin (5000 / 1000))
       "s/event_001_1000ms.jpg"%string "s/event_002_5000ms.jpg"%string
       0 1 eq_refl _ _)))).
  - apply list_elem_of_here.
  - apply list_elem_of_further, list_elem_of_here.
Defined.

(** ** Analysis of the video *)

Module VideoAnalysisFacts.
Import GeminiClient GeminiClientFacts VideoAnalysis.

Lemma bind_Ok {A B} (r : result A) (f : A → result B) b :
  (r ≫= f) = Ok b ↔ ∃ a, r = Ok a ∧ f a = Ok b.
Proof.
  destruct r as [a|e]; simpl.
  - split; [by exists a|]. by intros (a' & [= <-] & ?).
  - split; [done|]. by intros (a' & ? & _).
Qed.

Lemma fmap_Ok {A B} (f : A → B) (r : result A) b :
  f <$> r = Ok b ↔ ∃ a, r = Ok a ∧ b = f a.
Proof.
  destruct r as [a|e]; simpl.
  - split; [intros [= <-]; by exists a|]. by intros (a' & [= <-] & ->).
  - split; [done|]. by intros (a' & ? & _).
Qed.

Lemma get_Ok o key dflt v :
  get o key dflt = Ok v → ∃ members, o = JObj members.
Proof. destruct o; try done. by eexists. Qed.

Section parse_facts.
Context {pydantic : Pydantic}.

Lemma VideoEvent_new_spec v_ts kind v_tool v_description v_ws v_confidence
    event :
  VideoEvent_new v_ts kind v_tool v_description v_ws v_confidence = Ok event →
  screenshot_path event = None
  ∧ audio_transcript event = None
  ∧ event_type event = kind
  ∧ tool event = v_tool
  ∧ workflow_step event = v_ws
  ∧ optional validate_int v_ts = Some (timestamp_ms event)
  ∧ validate_str v_description = Some (description event)
  ∧ optional validate_float v_confidence = Some (confidence_score event).
Proof.
  unfold VideoEvent_new.
  destruct (optional validate_int v_ts) as [t|]; [|done].
  destruct (validate_str v_description) as [d|]; [|done].
  destruct (optional validate_float v_confidence) as [c|]; [|done].
  by intros [= <-].
Qed.

Lemma optional_None {A} (validate : json → option A) v :
  optional validate v = Some None ↔ v = JNull.
Proof.
  destruct v; simpl; try (split; [|done]); try done;
    by destruct (validate _).
Qed.

(** What an event that was parsed from an entry is like. *)
Lemma parse_event_spec entry event :
  parse_event entry = Ok event →
  (∃ fields, entry = JObj fields)
  ∧ screenshot_path event = None
  ∧ audio_transcript event = None
  ∧ (timestamp_ms event = None ↔ get entry "timestamp" JNull = Ok JNull)
  ∧ (event_type event = None
     ↔ ∃ v, get entry "event_type" JNull = Ok v ∧ py_truthy v = false).
Proof.
  unfold parse_event. intros H.
  apply bind_Ok in H as (tool_data & Htool & H).
  apply bind_Ok in H as (tool & _ & H).
  apply bind_Ok in H as (ws & _ & H).
  apply bind_Ok in H as (workflow_step & _ & H).
  apply bind_Ok in H as (ts & Hts & H).
  apply bind_Ok in H as (kind_data & Hkd & H).
  apply bind_Ok in H as (kind & Hkind & H).
  apply bind_Ok in H as (description & _ & H).
  apply bind_Ok in H as (confidence & _ & H).
  apply VideoEvent_new_spec in H
    as (Hshot & Haudio & Hk & _ & _ & Hopt & _ & _).
  split; [by eapply get_Ok|]. split; [done|]. split; [done|].
  rewrite Hts, Hkd, Hk. split.
  - split.
    + intros Hnone. rewrite Hnone in Hopt. apply optional_None in Hopt.
      by subst.
    + intros [= ->]. simpl in Hopt. by injection Hopt.
  - destruct (py_truthy kind_data) eqn:Htruthy.
    + apply fmap_Ok in Hkind as (k & _ & ->).
      split; [done|]. intros (v & [= <-] & ?). congruence.
    + injection Hkind as <-. split; [|done]. intros _. by exists kind_data.
Qed.

Lemma parse_loop_spec entries acc events :
  parse_loop entries acc = Ok events
  ↔ ∃ new,
      events = acc ++ new
      ∧ Forall2 (λ entry event, parse_event entry = Ok event) entries new.
Proof.
  revert acc. induction entries as [|entry entries IH]; intros acc; simpl.
  - split.
    + intros [= <-]. exists []. by rewrite app_nil_r.
    + intros (new & -> & Hall). apply Forall2_nil_inv_l in Hall as ->.
      by rewrite app_nil_r.
  - rewrite bind_Ok. split.
    + intros (event & Hevent & Hrest). apply IH in Hrest as (new & -> & Hall).
      exists (event :: new). rewrite <- app_assoc. split; [done|].
      by constructor.
    + intros (new & -> & Hall).
      apply Forall2_cons_inv_l in Hall as (event & new' & Hevent & Hall & ->).
      exists event. split; [done|]. apply IH. exists new'.
      by rewrite <- app_assoc.
Qed.

Lemma parse_all_or_nothing_iff response_data events :
  parse_video_events_response response_data = Ok events
  ↔ ∃ events_data entries,
      get response_data "events" (JArr []) = Ok events_data
      ∧ py_iter events_data = Ok entries
      ∧ Forall2 (λ entry event, parse_event entry = Ok event) entries events.
Proof.
  unfold parse_video_events_response. rewrite bind_Ok.
  split.
  - intros (events_data & Hget & H).
    apply bind_Ok in H as (entries & Hiter & H).
    apply parse_loop_spec in H as (new & -> & Hall).
    by exists events_data, entries.
  - intros (events_data & entries & Hget & Hiter & Hall).
    exists events_data. split; [done|]. apply bind_Ok.
    exists entries. split; [done|]. apply parse_loop_spec. by exists events.
Qed.

Lemma parse_all_or_nothing_entries response_data events :
  parse_video_events_response response_data = Ok events →
  events ≠ [] →
  ∃ entries,
    get response_data "events" (JArr []) = Ok (JArr entries)
    ∧ Forall2 (λ entry event, parse_event entry = Ok event) entries events.
Proof.
  intros Hparse Hne.
  apply parse_all_or_nothing_iff in Hparse
    as (events_data & entries & Hget & Hiter & Hall).
  destruct Hall as [|entry event entries events Hevent Hall]; [done|].
  pose proof Hevent as ((fields & ->) & _)%parse_event_spec.
  destruct events_data as [| | | s |items|members]; try done.
  - simpl in Hiter. destruct s; simpl in Hiter; [done|].
    by injection Hiter.
  - injection Hiter as ->. exists (JObj fields :: entries).
    split; [done|]. by constructor.
  - simpl in Hiter. injection Hiter as Hiter.
    destruct (dict_keys (py_dict members)); simpl in Hiter; [done|].
    by injection Hiter.
Qed.

(** X16.  Parsing a response is all or nothing: it returns events exactly
    when every entry of the response's events yields one, and then returns
    one event for each entry, in order; a response that yields at least one
    event is an object whose [events] is a list.  An event made from an
    entry has no screenshot reference and no transcript; it has no
    timestamp exactly when the entry has none or gives [null], and no event
    type exactly when the entry's is missing or falsy. *)
Theorem parse_all_or_nothing (response_data : json)
    (events : list VideoEvent) :
  (parse_video_events_response response_data = Ok events
   ↔ ∃ events_data entries,
       get response_data "events" (JArr []) = Ok events_data
       ∧ py_iter events_data = Ok entries
       ∧ Forall2 (λ entry event, parse_event entry = Ok event) entries events)
  ∧ (∀ entry event,
       parse_event entry = Ok event →
       (∃ fields, entry = JObj fields)
       ∧ screenshot_path event = None
       ∧ audio_transcript event = None
       ∧ (timestamp_ms event = None
          ↔ get entry "timestamp" JNull = Ok JNull)
       ∧ (event_type event = None
          ↔ ∃ v, get entry "event_type" JNull = Ok v ∧ py_truthy v = false))
  ∧ (parse_video_events_response response_data = Ok events →
     events ≠ [] →
     ∃ entries,
       get response_data "events" (JArr []) = Ok (JArr entries)
       ∧ length entries = length events).
Proof.
  split; [apply parse_all_or_nothing_iff|].
  split; [intros entry event; apply parse_event_spec|].
  intros Hparse Hne.
  destruct (parse_all_or_nothing_entries _ _ Hparse Hne)
    as (entries & Hget & Hall).
  exists entries. split; [done|]. by eapply Forall2_length.
Qed.
End parse_facts.

(** The upload with the default number of attempts returns an active file
    or raises. *)
Lemma default_upload_cases remote :
  (∃ f, (_upload_file_with_retry remote default_max_retries).1 = Returned f
        ∧ state f = ACTIVE)
  ∨ (_upload_file_with_retry remote default_max_retries).1 = Raised.
Proof.
  unfold _upload_file_with_retry.
  destruct (attempt_loop remote default_max_retries default_max_retries 0 _)
    as [result s'] eqn:Hrun.
  apply attempt_loop_spec in Hrun as (Hret & Hnone & _); [|done].
  simpl. destruct result as [f| |].
  - left. exists f. split; [done|]. by apply Hret.
  - by specialize (Hnone eq_refl).
  - by right.
Qed.

Lemma default_upload_never remote :
  never_active remote →
  let run := _upload_file_with_retry remote default_max_retries in
  run.1 = Raised
  ∧ count is_upload (trace run.2) = 3%nat
  ∧ count is_poll (trace run.2) = 30%nat.
Proof.
  intros Hnever. unfold _upload_file_with_retry.
  destruct (attempt_loop_never remote default_max_retries default_max_retries
              0 {| calls := 0; trace := [] |} Hnever)
    as (s' & Hrun & Hpoll & _); [done|unfold default_max_retries; lia|].
  rewrite Hrun. simpl.
  apply attempt_loop_spec in Hrun as (_ & _ & Hraise & _); [|done].
  split; [done|]. split; [by rewrite Hraise|by rewrite Hpoll].
Qed.

Section analysis_facts.
Context {lib : ClientLib} {pydantic : Pydantic}.

Lemma fallback_event_spec chunk e text event :
  fallback_event chunk e text = Ok event →
  ∃ ts,
    int_of_float (float_mul (start_time chunk) (of_int 1000)) = Ok ts
    ∧ timestamp_ms event = Some ts
    ∧ event_type event = Some SCREEN_CHANGE
    ∧ confidence_score event = Some (Fin (3 # 10))
    ∧ tool event = None
    ∧ workflow_step event = None
    ∧ screenshot_path event = None
    ∧ audio_transcript event = None.
Proof.
  unfold fallback_event. intros H. apply bind_Ok in H as (ts & Hts & [= <-]).
  by exists ts.
Qed.

Lemma events_of_text_fresh chunk text :
  Forall (λ e, screenshot_path e = None ∧ audio_transcript e = None)
    (events_of_text chunk text).
Proof.
  unfold events_of_text.
  destruct (json_loads text ≫= _) as [events|e] eqn:Hparse.
  - apply bind_Ok in Hparse as (result_json & _ & Hparse).
    apply parse_all_or_nothing_iff in Hparse
      as (events_data & entries & _ & _ & Hall).
    clear -Hall. induction Hall as [|entry event entries events He _ IH];
      constructor; [|done].
    by apply parse_event_spec in He as (_ & ? & ? & _).
  - destruct (is_ValueError e); [|constructor].
    destruct (fallback_event chunk e text) as [event|] eqn:Hfb; [|constructor].
    apply fallback_event_spec in Hfb as (ts & _ & _ & _ & _ & _ & _ & ? & ?).
    by repeat constructor.
Qed.

Lemma analysis_events_fresh client chunk :
  Forall (λ e, screenshot_path e = None ∧ audio_transcript e = None)
    (events (analyze_video_chunk client chunk)).
Proof.
  unfold analyze_video_chunk.
  destruct (_upload_file_with_retry _ _).1;
    destruct (prompts client "video_analysis"); simpl; try constructor;
    destruct (generate_content client _ _) as [|[text|e]];
    try constructor; apply events_of_text_fresh.
Qed.

(** X14.  An analysis asks the model at most once, and only with a file that
    the upload returned in state [ACTIVE] and with the prompt built from the
    configured one; when it does not ask, it returns no event.  It makes at
    most three uploads.  Against a service that never reports the file as
    active it makes three uploads and thirty polls, never asks the model and
    returns no event.  No event it returns carries a screenshot reference or
    a transcript. *)
Theorem analysis_asks_with_active_file (client : Client) (chunk : VideoChunk) :
  let a := analyze_video_chunk client chunk in
  (∀ file prompt,
     asked a = Some (file, prompt) →
     ∃ f base,
       file = Some f ∧ state f = ACTIVE
       ∧ (_upload_file_with_retry (remote client) default_max_retries).1
         = Returned f
       ∧ prompts client "video_analysis" = Some base
       ∧ prompt
         = video_analysis_prompt base (start_time chunk) (end_time chunk))
  ∧ (asked a = None → events a = [])
  ∧ (count is_upload (trace (upload_log a)) ≤ 3)%nat
  ∧ (never_active (remote client) →
     events a = [] ∧ asked a = None
     ∧ count is_upload (trace (upload_log a)) = 3%nat
     ∧ count is_poll (trace (upload_log a)) = 30%nat)
  ∧ Forall (λ e, screenshot_path e = None ∧ audio_transcript e = None)
      (events a).
Proof.
  intros a. unfold a.
  split; [|split; [|split; [|split]]]; [..|apply analysis_events_fresh];
    unfold analyze_video_chunk.
  - intros file prompt.
    destruct (default_upload_cases (remote client)) as [(f & Hf & Hact)| ->];
      [|done].
    rewrite Hf.
    destruct (prompts client "video_analysis") as [base|]; [|done].
    simpl. intros [= <- <-]. by exists f, base.
  - destruct (_upload_file_with_retry _ _).1;
      destruct (prompts client "video_analysis"); done.
  - assert (Hbound :
      (count is_upload
         (trace (_upload_file_with_retry (remote client)
                   default_max_retries).2) ≤ 3)%nat).
    { unfold _upload_file_with_retry.
      destruct (attempt_loop _ _ _ _ _) as [result s'] eqn:Hrun.
      apply attempt_loop_spec in Hrun as (_ & _ & _ & Hle); [|done].
      simpl in *. unfold default_max_retries in Hle. lia. }
    destruct (_upload_file_with_retry _ _).1;
      destruct (prompts client "video_analysis"); done.
  - intros Hnever.
    destruct (default_upload_never _ Hnever) as (Hraised & Hup & Hpoll).
    rewrite Hraised. simpl. done.
Qed.


End analysis_facts.
End VideoAnalysisFacts.

(** ** Transcription *)

Module TranscriptionFacts.
Import GeminiClient GeminiClientFacts VideoAnalysis VideoAnalysisFacts.

Section transcription_facts.
Context {lib : ClientLib} {pydantic : Pydantic}.




End transcription_facts.
End TranscriptionFacts.

(** ** Batches of chunks: sorting by timestamp *)

Module BatchFacts.
Import VideoAnalysis.

Lemma insert_sorted_perm {A} (x : Z * A) l : insert_sorted x l ≡ₚ x :: l.
Proof.
  induction l as [|y l IH]; simpl; [done|].
  case_bool_decide; [|done]. rewrite IH. apply Permutation_swap.
Qed.

Lemma stable_sort_perm {A} (l : list (Z * A)) : stable_sort l ≡ₚ l.
Proof.
  induction l as [|x l IH]; simpl; [done|].
  by rewrite insert_sorted_perm, IH.
Qed.

Lemma insert_sorted_sorted {A} (x : Z * A) l :
  StronglySorted (λ a b, a.1 ≤ b.1) l →
  StronglySorted (λ a b, a.1 ≤ b.1) (insert_sorted x l).
Proof.
  induction 1 as [|y l Hs IH Hall]; simpl; [repeat constructor|].
  case_bool_decide as Hlt.
  - constructor; [done|]. rewrite insert_sorted_perm.
    constructor; [lia|done].
  - constructor; [by constructor|].
    constructor; [lia|]. eapply Forall_impl; [done|]. simpl. intros. lia.
Qed.

Lemma stable_sort_sorted {A} (l : list (Z * A)) :
  StronglySorted (λ a b, a.1 ≤ b.1) (stable_sort l).
Proof.
  induction l as [|x l IH]; simpl; [constructor|].
  by apply insert_sorted_sorted.
Qed.

Lemma insert_sorted_stable {A} (k : Z) (x : Z * A) l :
  filter (λ p, p.1 = k) (insert_sorted x l) = filter (λ p, p.1 = k) (x :: l).
Proof.
  induction l as [|y l IH]; simpl; [done|].
  case_bool_decide as Hlt; [|done].
  rewrite (filter_cons _ y), IH, !filter_cons.
  repeat case_decide; try done; lia.
Qed.

Lemma stable_sort_stable {A} (k : Z) (l : list (Z * A)) :
  filter (λ p, p.1 = k) (stable_sort l) = filter (λ p, p.1 = k) l.
Proof.
  induction l as [|x l IH]; simpl; [done|].
  by rewrite insert_sorted_stable, !filter_cons, IH.
Qed.

Lemma keyed_fmap {A} (key : A → option Z) (l : list A) kl :
  mapM (λ a, k ← key a; Some (k, a)) l = Some kl →
  kl.*2 = l ∧ Forall (λ p, key p.2 = Some p.1) kl.
Proof.
  rewrite mapM_Some. induction 1 as [|a p l kl Hp _ [IH1 IH2]]; [done|].
  destruct (key a) as [k|] eqn:Hk; simpl in Hp; [|done].
  injection Hp as <-. split; [by rewrite fmap_cons, IH1|by constructor].
Qed.

Lemma py_sort_None {A} (key : A → option Z) (l : list A) :
  py_sort key l = None ↔ (2 ≤ length l)%nat ∧ ∃ a, a ∈ l ∧ key a = None.
Proof.
  unfold py_sort. case_bool_decide as Hlen.
  - split; [done|]. intros [? _]. lia.
  - destruct (mapM _ l) as [kl|] eqn:Hk; simpl.
    + split; [done|]. intros [_ (a & Ha & Hnone)].
      assert (Hex : mapM (λ a, k ← key a; Some (k, a)) l = None).
      { apply mapM_None, Exists_exists. exists a. split; [done|].
        by rewrite Hnone. }
      congruence.
    + split; [|done]. intros _. split; [lia|].
      apply mapM_None, Exists_exists in Hk as (a & Ha & Hnone).
      exists a. split; [done|]. by destruct (key a).
Qed.

Lemma py_sort_Some {A} (key : A → option Z) (l sorted : list A) :
  py_sort key l = Some sorted →
  sorted ≡ₚ l
  ∧ StronglySorted (key_le key) sorted
  ∧ (∀ k, filter (λ a, key a = Some k) sorted
          = filter (λ a, key a = Some k) l)
  ∧ ((2 ≤ length l)%nat → Forall (λ a, is_Some (key a)) sorted).
Proof.
  unfold py_sort. case_bool_decide as Hlen.
  - intros [= <-]. split; [done|]. split; [|split; [done|lia]].
    destruct l as [|a [|b l]]; [constructor|repeat constructor|simpl in Hlen; lia].
  - destruct (mapM _ l) as [kl|] eqn:Hk; simpl; [|done].
    intros [= <-]. apply keyed_fmap in Hk as [Hl Hkey]. subst l.
    assert (Hkey' : Forall (λ p, key p.2 = Some p.1) (stable_sort kl))
      by by rewrite stable_sort_perm.
    split; [by rewrite stable_sort_perm|]. split; [|split].
    + pose proof (stable_sort_sorted kl) as Hs.
      induction Hs as [|p ps Hs IH Hall]; [constructor|].
      apply Forall_cons in Hkey' as [Hp Hps].
      simpl. constructor; [by apply IH|].
      rewrite Forall_fmap. rewrite Forall_forall in Hall, Hps |- *.
      intros q Hq x y Hx Hy. simpl in *.
      specialize (Hall q Hq). specialize (Hps q Hq). simpl in *.
      rewrite Hp in Hx. rewrite Hps in Hy. injection Hx as <-.
      injection Hy as <-. done.
    + intros k.
      assert (Hf : ∀ ps : list (Z * A),
                Forall (λ p, key p.2 = Some p.1) ps →
                filter (λ a, key a = Some k) ps.*2
                = (filter (λ p, p.1 = k) ps).*2).
      { clear. induction 1 as [|p ps Hp _ IH]; [done|].
        rewrite fmap_cons, !filter_cons, IH, Hp.
        destruct (decide (p.1 = k)) as [->|Hne].
        - by rewrite decide_True.
        - rewrite decide_False by congruence. done. }
      by rewrite !Hf, stable_sort_stable.
    + intros _. rewrite Forall_fmap. eapply Forall_impl; [exact Hkey'|].
      simpl. intros p ->. by eexists.
Qed.

Section batch_facts.
Context {lib : ClientLib} {pydantic : Pydantic}.

Lemma analyze_loop_concat clients i chunks all_events :
  analyze_loop clients i chunks all_events
  = all_events
    ++ concat (imap (λ j chunk,
                       events (analyze_video_chunk (clients (i + j)%nat) chunk))
                 chunks).
Proof.
  revert i all_events. induction chunks as [|chunk chunks IH];
    intros i all_events.
  - cbn [analyze_loop]. rewrite imap_nil. cbn [concat]. rewrite app_nil_r.
    reflexivity.
  - cbn [analyze_loop]. rewrite IH, imap_cons. cbn [concat].
    rewrite <- app_assoc, Nat.add_0_r.
    assert (Hshift :
      imap (λ j c, events (analyze_video_chunk (clients (S i + j)%nat) c))
        chunks
      = imap ((λ j c, events (analyze_video_chunk (clients (i + j)%nat) c))
              ∘ S) chunks).
    { apply imap_ext. intros j c _. unfold compose.
      replace (S i + j)%nat with (i + S j)%nat by lia. reflexivity. }
    rewrite Hshift. reflexivity.
Qed.

(** X17.  Analysing a batch raises exactly when the analyses of its chunks
    return two or more events together and one of them has no timestamp.
    When it returns, the result holds the events of all the chunks and no
    others, in ascending order of timestamp, events with the same timestamp
    in the order of their chunks and of their entries; none of them carries
    a screenshot reference or a transcript. *)
Theorem batch_sorted_or_raises (clients : nat → Client)
    (chunks : list VideoChunk) :
  let all_events :=
    concat (imap (λ i chunk, events (analyze_video_chunk (clients i) chunk))
              chunks) in
  (batch_analyze_chunks clients chunks = None
   ↔ (2 ≤ length all_events)%nat
     ∧ ∃ e, e ∈ all_events ∧ timestamp_ms e = None)
  ∧ ∀ sorted,
      batch_analyze_chunks clients chunks = Some sorted →
      sorted ≡ₚ all_events
      ∧ StronglySorted (key_le timestamp_ms) sorted
      ∧ (∀ ts, filter (λ e, timestamp_ms e = Some ts) sorted
               = filter (λ e, timestamp_ms e = Some ts) all_events)
      ∧ ((2 ≤ length all_events)%nat →
         Forall (λ e, is_Some (timestamp_ms e)) sorted)
      ∧ Forall (λ e, screenshot_path e = None ∧ audio_transcript e = None)
          sorted.
Proof.
  intros all_events. unfold batch_analyze_chunks.
  rewrite analyze_loop_concat. rewrite app_nil_l.
  change (λ j chunk, events (analyze_video_chunk (clients (0 + j)%nat) chunk))
    with (λ j chunk, events (analyze_video_chunk (clients j) chunk)).
  fold all_events.
  split; [apply py_sort_None|].
  intros sorted Hsort. apply py_sort_Some in Hsort as (Hperm & Hs & Hst & Hk).
  repeat (split; [done|]).
  rewrite Hperm. unfold all_events. apply Forall_concat.
  apply Forall_forall. intros l Hl.
  apply elem_of_lookup_imap in Hl as (i & chunk & -> & _).
  apply VideoAnalysisFacts.analysis_events_fresh.
Qed.
End batch_facts.
End BatchFacts.

(** ** Worked examples of the analysis *)

Module AnalysisExamples.
Import GeminiClient VideoAnalysis.

Example parse_examples :
  parse_video_events_response (pydantic := sample_pydantic) two_entries
  = Ok [{| timestamp_ms := Some 7000;
           event_type := Some USER_ACTION;
           tool := Some {| ToolIdentification.name := "Gmail";
                           ToolIdentification.type := None;
                           ToolIdentification.url := None;
                           ToolIdentification.version := None |};
           description := "Opens the inbox";
           workflow_step := None;
           confidence_score := Some (Fin (9 # 10));
           audio_transcript := None;
           screenshot_path := None |};
        {| timestamp_ms := None;
           event_type := None;
           tool := None;
           description := "Scrolls down";
           workflow_step := None;
           confidence_score := None;
           audio_transcript := None;
           screenshot_path := None |}]
  ∧ parse_video_events_response (pydantic := sample_pydantic) (JArr [])
    = Raise OtherError
  ∧ parse_video_events_response (pydantic := sample_pydantic) (JObj [])
    = Ok []
  ∧ parse_video_events_response (pydantic := sample_pydantic)
      (JObj [("events"%string,
              JArr [JObj [("description"%string, JStr "a");
                          ("event_type"%string, JStr "CLICK")]])])
    = Raise (ValueError (JStr "CLICK"))
  ∧ parse_video_events_response (pydantic := sample_pydantic)
      (JObj [("events"%string, JArr [JObj [("description"%string, JNull)]])])
    = Raise (ValidationError "VideoEvent").
Proof. repeat split; vm_compute; reflexivity. Qed.

Example analysis_examples :
  events (analyze_video_chunk (lib := sample_lib) (pydantic := sample_pydantic)
            (sample_client "not json") (chunk_at (25 # 2)))
  = [{| timestamp_ms := Some 12500;
        event_type := Some SCREEN_CHANGE;
        tool := None;
        description :=
          "Analysis error: JSONDecodeError. Raw response: not json";
        workflow_step := None;
        confidence_score := Some (Fin (3 # 10));
        audio_transcript := None;
        screenshot_path := None |}]
  ∧ events (analyze_video_chunk (lib := sample_lib)
              (pydantic := sample_pydantic)
              (sample_client "[]") (chunk_at 0))
    = []
  ∧ length (events (analyze_video_chunk (lib := sample_lib)
                      (pydantic := sample_pydantic)
                      (sample_client sample_text) (chunk_at 0)))
    = 2%nat
  ∧ batch_analyze_chunks (lib := sample_lib) (pydantic := sample_pydantic)
      (λ _, sample_client sample_text) [chunk_at 0]
    = None
  ∧ (timestamp_ms
     <$> default []
           (batch_analyze_chunks (lib := sample_lib)
              (pydantic := sample_pydantic)
              (λ _, sample_client "not json")
              [chunk_at 30; chunk_at 0; chunk_at (25 # 2)]))
    = [Some 0; Some 12500; Some 30000]
  ∧ transcripts (transcribe_audio (lib := sample_lib)
                   (pydantic := sample_pydantic) (sample_client "not json"))
    = [{| AudioTranscript.timestamp := Some 0;
          AudioTranscript.speaker := None;
          AudioTranscript.text := "Transcription error: JSONDecodeError";
          AudioTranscript.confidence := Some (Fin 0) |}].
Proof. repeat split; vm_compute; reflexivity. Qed.

(** The rounding of the product shows in the fallback timestamp: for the
    double nearest to 0.29 the exact product with 1000 lies just below 290,
    the float product is 290.  [SFmul] of the Standard Library gives the
    same double, 290 * 2 ^ 44 * 2 ^ -44. *)
Example fallback_timestamp_examples :
  float_mul (Fin (5224175567749775 # 18014398509481984)) (of_int 1000)
  = Fin 290
  ∧ int_of_float
      (float_mul (Fin (5224175567749775 # 18014398509481984)) (of_int 1000))
    = Ok 290
  ∧ int_of_float
      (pn_mul (Fin (5224175567749775 # 18014398509481984)) (of_int 1000))
    = Ok 289
  ∧ SpecFloat.SFmul 53 1024
      (SpecFloat.S754_finite false 5224175567749775 (-54))
      (SpecFloat.S754_finite false 1000 0)
    = SpecFloat.S754_finite false 5101733952880640 (-44)
  ∧ (5101733952880640 # 17592186044416 == 290)%Q
  ∧ (timestamp_ms
     <$> events (analyze_video_chunk (lib := sample_lib)
                   (pydantic := sample_pydantic) (sample_client "not json")
                   (chunk_at (5224175567749775 # 18014398509481984))))
    = [Some 290]
  ∧ float_mul (Fin (25 # 2)) (of_int 1000) = Fin 12500
  ∧ float_mul PInf (of_int 1000) = PInf
  ∧ float_mul (Fin (3602879701896397 # 36028797018963968)) (Fin 3)
    = Fin (1351079888211149 # 4503599627370496).
Proof. repeat split; vm_compute; reflexivity. Qed.
End AnalysisExamples.

(** ** The analysis stage of [process_video] *)

Module ProcessVideoFacts.
Import GeminiClient VideoAnalysis BatchFacts ProcessVideo.

Lemma insert_sorted_least {A} (x : Z * A) l :
  Forall (λ y, x.1 ≤ y.1) l → insert_sorted x l = x :: l.
Proof.
  destruct 1 as [|y l Hy _]; [done|]. simpl.
  by rewrite bool_decide_false by lia.
Qed.

Lemma stable_sort_sorted_id {A} (l : list (Z * A)) :
  StronglySorted (λ a b, a.1 ≤ b.1) l → stable_sort l = l.
Proof.
  induction 1 as [|x l _ IH Hall]; [done|].
  simpl. rewrite IH. by apply insert_sorted_least.
Qed.

(** Sorting a list that is in order returns it as it is. *)
Lemma py_sort_sorted_id {A} (key : A → option Z) (l l' : list A) :
  StronglySorted (key_le key) l → py_sort key l = Some l' → l' = l.
Proof.
  unfold py_sort. intros Hs. case_bool_decide; [by intros [= <-]|].
  destruct (mapM _ l) as [kl|] eqn:Hk; simpl; [|done].
  intros [= <-]. apply keyed_fmap in Hk as [<- Hkey].
  rewrite stable_sort_sorted_id; [done|].
  clear -Hs Hkey. revert Hs.
  induction Hkey as [|p kl Hp Hkey IH]; intros Hs; [constructor|].
  rewrite fmap_cons in Hs. apply StronglySorted_cons in Hs as [Hall Hs].
  constructor; [by apply IH|].
  rewrite Forall_fmap in Hall. rewrite Forall_forall in Hall, Hkey |- *.
  intros q Hq. exact (Hall q Hq _ _ Hp (Hkey q Hq)).
Qed.

Lemma key_le_transfer {A B} (key : A → option Z) (key' : B → option Z)
    (l : list A) (l' : list B) :
  key' <$> l' = key <$> l →
  StronglySorted (key_le key) l → StronglySorted (key_le key') l'.
Proof.
  intros Heq Hs. revert l' Heq.
  induction Hs as [|a l Hs IH Hall]; intros [|b l'] Heq; try done;
    [constructor|].
  rewrite !fmap_cons in Heq. injection Heq as Hb Heq.
  constructor; [by apply IH|].
  apply Forall_forall. intros b' Hb' x y Hx Hy.
  apply list_elem_of_lookup_1 in Hb' as [k Hk].
  assert (Hk' : (key' <$> l') !! k = Some (key' b'))
    by by rewrite list_lookup_fmap, Hk.
  rewrite Heq, list_lookup_fmap in Hk'.
  destruct (l !! k) as [a'|] eqn:Ha'; [|done]. injection Hk' as Hk'.
  rewrite Forall_forall in Hall.
  apply (Hall a' (list_elem_of_lookup_2 _ _ _ Ha')); congruence.
Qed.

Section stage_facts.
Context {paths : PathLib} {parsing : StrParsing}.
Context {lib : ClientLib} {pydantic : Pydantic}.

(** A run keeps the timestamp and the type of every event. *)
Lemma extract_keeps_keys config w events session_dir events' :
  extract_event_screenshots config w events session_dir = Some events' →
  timestamp_ms <$> events' = timestamp_ms <$> events
  ∧ event_type <$> events' = event_type <$> events.
Proof.
  intros [->|(plan & _ & ->)]%extract_cases; [done|].
  rewrite <- !list_fmap_compose.
  split; apply list_fmap_ext; intros k e _; simpl;
    (destruct (is_action e); [|done]);
    by destruct (bind_event_frame config
                   (_batch_extract_screenshots plan (completed w plan)
                      (task_outcome w plan)) e) as (? & ? & _).
Qed.

Lemma stage_sort_is_identity clients chunks w session_dir analysed out :
  batch_analyze_chunks clients chunks = Some analysed →
  extract_event_screenshots default_config w
    (filter (λ e, is_action e = true) analysed) session_dir = Some out →
  py_sort timestamp_ms out = Some out
  ∧ StronglySorted (key_le timestamp_ms) out
  ∧ Forall (λ e, is_action e = true) out.
Proof.
  intros Hbatch Hrun. unfold batch_analyze_chunks in Hbatch.
  apply py_sort_Some in Hbatch as (Hperm & Hsorted & _ & Hkeys).
  pose proof Hrun as [Hts Hty]%extract_keeps_keys.
  assert (Hs : StronglySorted (key_le timestamp_ms) out).
  { eapply key_le_transfer; [exact Hts|].
    eapply StronglySorted_sublist; [apply sublist_filter|done]. }
  split; [|split; [done|]].
  - destruct (py_sort timestamp_ms out) as [out'|] eqn:Hsort.
    + by rewrite (py_sort_sorted_id _ _ _ Hs Hsort).
    + apply py_sort_None in Hsort as (Hlen & e & He & Hnone).
      exfalso.
      assert (Hlen' : (2 ≤ length analysed)%nat).
      { pose proof (length_filter (λ e, is_action e = true) analysed).
        rewrite <- (length_fmap timestamp_ms), Hts, length_fmap in Hlen.
        lia. }
      rewrite Hperm in Hlen'. specialize (Hkeys Hlen').
      assert (Hin : None ∈ timestamp_ms <$> out).
      { apply list_elem_of_fmap. by exists e. }
      rewrite Hts in Hin.
      apply list_elem_of_fmap in Hin as (e' & He' & Hin).
      apply list_elem_of_filter in Hin as [_ Hin].
      rewrite Forall_forall in Hkeys. destruct (Hkeys e' Hin) as [ts Hsome].
      congruence.
  - apply Forall_forall. intros e He.
    apply list_elem_of_lookup_1 in He as [k Hk].
    assert (Hk' : (event_type <$> out) !! k = Some (event_type e))
      by by rewrite list_lookup_fmap, Hk.
    rewrite Hty, list_lookup_fmap in Hk'.
    destruct (filter _ analysed !! k) as [e'|] eqn:He'; [|done].
    injection Hk' as Hk'.
    apply list_elem_of_lookup_2, list_elem_of_filter in He' as [Hact _].
    unfold is_action in *. by rewrite <- Hk'.
Qed.

(** X19.  In [process_video] the sort of the action events after the
    extraction of screenshots changes nothing and never raises: the events
    come out of the extraction in ascending order of timestamp already.  The
    stage returns the events of the batch analysis that are not transcript
    events, in that order, with the references the extraction set, and the
    transcripts in ascending order of timestamp. *)
Theorem process_video_events_in_order (clients : nat → Client)
    (transcriber : Client) (w : World) (chunks : list VideoChunk)
    (session_dir : Path) :
  (∀ analysed out,
     batch_analyze_chunks clients chunks = Some analysed →
     extract_event_screenshots default_config w
       (filter (λ e, is_action e = true) analysed) session_dir = Some out →
     py_sort timestamp_ms out = Some out)
  ∧ ∀ action_events transcripts,
      process_video_events clients transcriber w chunks session_dir
      = Some (action_events, transcripts) →
      ∃ analysed,
        batch_analyze_chunks clients chunks = Some analysed
        ∧ extract_event_screenshots default_config w
            (filter (λ e, is_action e = true) analysed) session_dir
          = Some action_events
        ∧ timestamp_ms <$> action_events
          = timestamp_ms <$> filter (λ e, is_action e = true) analysed
        ∧ StronglySorted (key_le timestamp_ms) action_events
        ∧ Forall (λ e, is_action e = true) action_events
        ∧ transcripts
          ≡ₚ VideoAnalysis.transcripts (transcribe_audio transcriber)
        ∧ StronglySorted (key_le AudioTranscript.timestamp) transcripts.
Proof.
  split.
  { intros analysed out Hbatch Hrun.
    by destruct (stage_sort_is_identity _ _ _ _ _ _ Hbatch Hrun) as [? _]. }
  intros action_events trs. unfold process_video_events.
  destruct (batch_analyze_chunks clients chunks) as [analysed|] eqn:Hbatch;
    [|done].
  cbn [mbind option_bind].
  destruct (extract_event_screenshots _ _ _ _) as [out|] eqn:Hrun; [|done].
  cbn [mbind option_bind].
  destruct (stage_sort_is_identity _ _ _ _ _ _ Hbatch Hrun)
    as (Hid & Hs & Hact).
  rewrite Hid. cbn [mbind option_bind].
  destruct (py_sort AudioTranscript.timestamp _) as [sorted|] eqn:Hsort;
    [|done].
  cbn [mbind option_bind]. intros [= <- <-].
  exists analysed. split; [done|]. split; [done|].
  split; [by apply extract_keeps_keys in Hrun as [? _]|].
  split; [done|]. split; [done|].
  by apply py_sort_Some in Hsort as (? & ? & _).
Qed.
End stage_facts.
End ProcessVideoFacts.

Example process_video_example :
  ProcessVideo.process_video_events (parsing := decimal_parsing)
    (lib := VideoAnalysis.sample_lib)
    (pydantic := VideoAnalysis.sample_pydantic)
    (λ _, VideoAnalysis.sample_client "not json")
    (VideoAnalysis.sample_client "{}") sample_world
    [VideoAnalysis.chunk_at 3] "session"%string
  = Some ([{| timestamp_ms := Some 3000;
              event_type := Some SCREEN_CHANGE;
              tool := None;
              description :=
                "Analysis error: JSONDecodeError. Raw response: not json";
              workflow_step := None;
              confidence_score := Some (Fin (3 # 10));
              audio_transcript := None;
              screenshot_path :=
                Some "screenshots/event_001_3000ms.jpg"%string |}],
          []).
Proof. vm_compute. reflexivity. Qed.
